(** * Subtitle downloader and enhancer: a shallow embedding of [main.py]

    The development follows the three functions of the program:
    [search_and_download_subtitles] (the provider search aggregator),
    [enhance_subtitles] (the enhancement pipeline) and the
    "Search Subtitles" branch of [main] (cache key and result cache),
    with the rendering of the results and the callback of the enhance
    buttons.

    Python values are modelled as the program has them: a [str] is a
    sequence of Unicode code points, a [dict] is a finite map, [None]
    is [option], an exception is a value that a computation may raise.
    The file system, the provider capability and the completion
    capability belong to the outside world and are threaded through the
    computations as explicit state and oracles. *)

From Stdlib Require Import ZArith NArith QArith String Ascii List DecimalString.
From Stdlib Require Import DecimalZ.
From stdpp Require Import base option list gmap sets fin_maps.

Local Open Scope string_scope.
Local Open Scope list_scope.
Local Open Scope Z_scope.

(** ** Python strings *)

Module PyStr.

(** A Python [str]: the sequence of its code points. *)
Abbreviation pystr := (list N).

(** [bytes] objects are sequences of octets. *)
Abbreviation pybytes := (list N).

(** Code points of an ASCII literal of the program text. *)
Fixpoint py (s : string) : pystr :=
  match s with
  | EmptyString => []
  | String a rest => N_of_ascii a :: py rest
  end.

Arguments py : simpl never.

(** [str(n)] for an [int]. *)
Definition str_of_int (n : Z) : pystr :=
  py (NilEmpty.string_of_int (Z.to_int n)).

(** [sep.join(parts)]. *)
Fixpoint join (sep : pystr) (parts : list pystr) : pystr :=
  match parts with
  | [] => []
  | [p] => p
  | p :: rest => p ++ sep ++ join sep rest
  end.

(** [s.startswith(prefix)]. *)
Fixpoint startswith (s prefix : pystr) : bool :=
  match prefix, s with
  | [], _ => true
  | _ :: _, [] => false
  | c :: prefix', d :: s' => if decide (c = d) then startswith s' prefix' else false
  end.

(** [s.split(sep)] for a one-character separator. *)
Fixpoint split (sep : N) (s : pystr) : list pystr :=
  match s with
  | [] => [[]]
  | c :: rest =>
      if decide (c = sep) then [] :: split sep rest
      else match split sep rest with
           | [] => [[c]]
           | w :: ws => (c :: w) :: ws
           end
  end.

(** The code points for which [str.isspace] holds; [str.strip()]
    with no argument removes exactly these. *)
Definition isspace (c : N) : bool :=
  ((9 <=? c) && (c <=? 13) || (28 <=? c) && (c <=? 32)
   || (c =? 133) || (c =? 160) || (c =? 5760)
   || (8192 <=? c) && (c <=? 8202)
   || (c =? 8232) || (c =? 8233) || (c =? 8239) || (c =? 8287)
   || (c =? 12288))%N.

(** [s.lstrip()]. *)
Fixpoint lstrip (s : pystr) : pystr :=
  match s with
  | [] => []
  | c :: rest => if isspace c then lstrip rest else s
  end.

(** [s.rstrip()]. *)
Definition rstrip (s : pystr) : pystr := rev (lstrip (rev s)).

(** [s.strip()]. *)
Definition strip (s : pystr) : pystr := rstrip (lstrip s).

(** [s[:n]]. *)
Definition slice_to (n : nat) (s : pystr) : pystr := take n s.

(** Truth value of an optional string ([None] and [''] are falsy). *)
Definition truthy (s : option pystr) : bool :=
  match s with
  | Some (_ :: _) => true
  | _ => false
  end.

End PyStr.
Import PyStr.

(** ** Exceptions *)

(** The classes of [Exception] that the program and the modelled
    library calls raise; [OtherError] stands for any further subclass
    of [Exception] an external capability may raise, by name. *)
Inductive ExnClass :=
| FileExistsError
| FileNotFoundError
| NotADirectoryError
| IsADirectoryError
| OSError
| ValueError
| AttributeError
| OtherError (name : pystr).

(** An exception instance; [exc_str] is [str(e)]. *)
Record Exn := { exc_class : ExnClass; exc_str : pystr }.

Inductive Result (A : Type) :=
| Ok (a : A)
| Raise (e : Exn).
Arguments Ok {A} a.
Arguments Raise {A} e.

Definition is_file_exists (e : Exn) : bool :=
  match exc_class e with
  | FileExistsError => true
  | _ => false
  end.

(** ** The file system seen by the program *)

Module Fs.

(** A resolved absolute path: its components below the root. *)
Abbreviation path := (list pystr).

Inductive Node :=
| Dir
| File (content : pybytes).

(** The directory tree below the root; the root itself always exists. *)
Abbreviation tree := (gmap path Node).

Definition is_dir (t : tree) (p : path) : bool :=
  match p with
  | [] => true
  | _ => match t !! p with
         | Some Dir => true
         | _ => false
         end
  end.

Definition exists_ (t : tree) (p : path) : bool :=
  match p with
  | [] => true
  | _ => bool_decide (is_Some (t !! p))
  end.

Definition sep : N := 47%N.

(** [posixpath.join(a, b)]: an absolute second argument discards the
    first. *)
Definition os_path_join (a b : pystr) : pystr :=
  if startswith b [sep] then b
  else match a with
       | [] => b
       | _ => if decide (last a = Some sep) then a ++ b else a ++ [sep] ++ b
       end.

(** The components [""] and ["."] leave the walk in place. *)
Definition stays (c : pystr) : bool :=
  bool_decide (c = []) || bool_decide (c = py ".").

Definition dotdot (c : pystr) : bool := bool_decide (c = py "..").

(** The exception of a failed resolution. [exc_str] is the [strerror]
    part of the message, which CPython follows with the quoted name of
    the file the call was made for. *)
Definition missing (t : tree) (p : path) : Exn :=
  if exists_ t p
  then {| exc_class := NotADirectoryError; exc_str := py "[Errno 20] Not a directory" |}
  else {| exc_class := FileNotFoundError; exc_str := py "[Errno 2] No such file or directory" |}.

(** Kernel path resolution of a sequence of components from [cur]:
    every named component must be an existing directory. *)
Fixpoint walk (t : tree) (cur : path) (comps : list pystr) : Result path :=
  match comps with
  | [] => Ok cur
  | c :: rest =>
      if stays c then walk t cur rest
      else if dotdot c then walk t (removelast cur) rest
      else if is_dir t (cur ++ [c]) then walk t (cur ++ [c]) rest
      else Raise (missing t (cur ++ [c]))
  end.

(** Bytes of the UTF-8 encoding of a code point. *)
Definition utf8_len (c : N) : N :=
  (if c <? 128 then 1 else if c <? 2048 then 2 else if c <? 65536 then 3 else 4)%N.

Definition name_bytes (name : pystr) : N :=
  foldr (fun c acc => (utf8_len c + acc)%N) 0%N name.

Definition NAME_MAX : N := 255%N.

Definition embedded_null : Exn :=
  {| exc_class := ValueError; exc_str := py "embedded null byte" |}.

(** Where a path string names an entry to be created: the resolved
    parent directory and the final component. *)
Definition parent_and_name (t : tree) (s : pystr) : Result (path * pystr) :=
  if bool_decide (0%N ∈ s) then Raise embedded_null
  else match s with
       | [] => Raise {| exc_class := FileNotFoundError;
                        exc_str := py "[Errno 2] No such file or directory" |}
       | _ =>
           let comps := split sep s in
           match walk t [] (removelast comps) with
           | Raise e => Raise e
           | Ok d => Ok (d, List.last comps [])
           end
       end.

(** [open(s, 'wb')] followed by [write(data)] and close. *)
Definition write_file (t : tree) (s : pystr) (data : pybytes) : Result tree :=
  match parent_and_name t s with
  | Raise e => Raise e
  | Ok (d, name) =>
      if stays name || dotdot name || is_dir t (d ++ [name])
      then Raise {| exc_class := IsADirectoryError; exc_str := py "[Errno 21] Is a directory" |}
      else if (NAME_MAX <? name_bytes name)%N
      then Raise {| exc_class := OSError; exc_str := py "[Errno 36] File name too long" |}
      else Ok (<[d ++ [name] := File data]> t)
  end.

(** [os.mkdir(s)]. *)
Definition os_mkdir (t : tree) (s : pystr) : Result tree :=
  match parent_and_name t s with
  | Raise e => Raise e
  | Ok (d, name) =>
      if stays name || dotdot name || exists_ t (d ++ [name])
      then Raise {| exc_class := FileExistsError; exc_str := py "[Errno 17] File exists" |}
      else if (NAME_MAX <? name_bytes name)%N
      then Raise {| exc_class := OSError; exc_str := py "[Errno 36] File name too long" |}
      else Ok (<[d ++ [name] := Dir]> t)
  end.

(** The directory a path string names. *)
Definition resolve_dir (t : tree) (s : pystr) : Result path :=
  if bool_decide (0%N ∈ s) then Raise embedded_null
  else walk t [] (split sep s).

(** What is left of the tree when the subtree at [d] is removed. *)
Definition remove_subtree (d : path) (t : tree) : tree :=
  filter (fun entry => ¬ d `prefix_of` entry.1) t.

(** [shutil.rmtree(s)]. *)
Definition rmtree (t : tree) (s : pystr) : Result tree :=
  match resolve_dir t s with
  | Raise e => Raise e
  | Ok d => Ok (remove_subtree d t)
  end.

(** The alphabet of [tempfile._RandomNameSequence]. *)
Definition characters : pystr := py "abcdefghijklmnopqrstuvwxyz0123456789_".

Fixpoint random_chars (k : nat) (seed : N) : pystr :=
  match k with
  | O => []
  | S k' => nth (N.to_nat (seed mod 37)) characters 95%N :: random_chars k' (seed / 37)
  end.

(** A candidate directory name: the prefix [tmp] and eight characters. *)
Definition candidate_name (seed : N) : pystr := py "tmp" ++ random_chars 8 seed.

End Fs.

(** ** Data of the program *)

(** A subtitle match handed back by the provider capability. *)
Record Subtitle := {
  language_alpha3 : pystr;          (* sub.language.alpha3 *)
  provider_name : pystr;
  sub_id : pystr;
  content : pybytes;
  hearing_impaired : option bool
}.

(** The video object of [scan_video], with the attributes the program
    assigns. [v_guessed_episode] records the class the scan chose. *)
Record Video := {
  v_name : pystr;
  v_guessed_episode : bool;
  v_title : option pystr;
  v_year : option Z;
  v_series : option pystr;
  v_season : option Z;
  v_episode : option Z
}.

(** One entry of [provider_configs]. *)
Record Credentials := {
  username : option pystr;
  password : option pystr
}.

(** The arguments of one call of [download_best_subtitles]. *)
Record ProviderCall := {
  pc_video : Video;
  pc_languages : gset pystr;
  pc_providers : list pystr;
  pc_configs : gmap pystr Credentials
}.

(** The arguments of one call of [openai.chat.completions.create],
    with the module settings [base_url] and [api_key] in force. *)
Record CompletionRequest := {
  rq_base_url : pystr;
  rq_api_key : pystr;
  rq_model : pystr;
  rq_messages : list (pystr * pystr);   (* role, content *)
  rq_temperature : Q;
  rq_max_tokens : Z
}.

Record Choice := { message_content : pystr }.   (* choices[i].message.content *)

(** What [create] hands back: a [ChatCompletion] object, or the body
    as a plain [str] when the endpoint does not answer with JSON. *)
Inductive Response :=
| ChatCompletion (choices : list Choice)
| PlainText (text : pystr).

(** The result dictionary of a search: language code to subtitle. *)
Abbreviation Results := (gmap pystr Subtitle).

(** ** Logging and user interface calls *)

Inductive Level := DEBUG | INFO | WARNING | ERROR.

(** One constructor per logging statement of the modelled code, with
    the values its message interpolates. *)
Inductive LogMsg :=
| StartingSearch (title : pystr) (year : Z) (media_type : pystr)
| TempDirCreated (temp_dir : pystr)
| DummyFileCreated (dummy_path : pystr)
| EpisodeMetadataSet (season episode : option Z)
| SearchingLanguages (languages : list pystr)
| DownloadCompleted
| SubtitleFound (provider id lang : pystr)
| SearchError (msg : pystr)
| TempDirRemoved (temp_dir : pystr)
| ApiKeyNotFound
| PromptPrepared (head : pystr)
| ResponseReceived
| ValidatedSuccessfully
| EnhanceError (msg : pystr)
| MissingFields
| CacheKeyGenerated (key : pystr)
| UsingCachedResults
| ResultsCached
| SearchFailed (msg : pystr)
| NoSubtitlesFound
| DisplayingSubtitle (lang : pystr)
| EnhanceClicked (lang : pystr)
| EnhancementCompleted
| EnhancementFailed
| EnhancedHidden (lang : pystr).

Inductive UiCall :=
| st_error (msg : pystr)
| st_warning (msg : pystr).

(** ** The world outside the program *)

Record World := {
  fs : Fs.tree;                               (* directory tree *)
  tmpdir : list pystr;                        (* components of tempfile.gettempdir() *)
  rng : list N;                               (* coming draws of the temporary name generator *)
  provider_calls : list ProviderCall;         (* calls of download_best_subtitles so far *)
  completion_calls : list CompletionRequest;  (* calls of chat.completions.create so far *)
  log : list (Level * LogMsg);                (* logging calls so far *)
  ui : list UiCall;                           (* streamlit messages so far *)
  stdout : list pystr                         (* lines printed so far *)
}.

Definition set_fs (t : Fs.tree) (w : World) : World :=
  {| fs := t; tmpdir := tmpdir w; rng := rng w; provider_calls := provider_calls w;
     completion_calls := completion_calls w; log := log w; ui := ui w; stdout := stdout w |}.

Definition set_rng (r : list N) (w : World) : World :=
  {| fs := fs w; tmpdir := tmpdir w; rng := r; provider_calls := provider_calls w;
     completion_calls := completion_calls w; log := log w; ui := ui w; stdout := stdout w |}.

Definition add_provider_call (c : ProviderCall) (w : World) : World :=
  {| fs := fs w; tmpdir := tmpdir w; rng := rng w; provider_calls := provider_calls w ++ [c];
     completion_calls := completion_calls w; log := log w; ui := ui w; stdout := stdout w |}.

Definition add_completion_call (c : CompletionRequest) (w : World) : World :=
  {| fs := fs w; tmpdir := tmpdir w; rng := rng w; provider_calls := provider_calls w;
     completion_calls := completion_calls w ++ [c]; log := log w; ui := ui w;
     stdout := stdout w |}.

Definition add_log (l : Level) (m : LogMsg) (w : World) : World :=
  {| fs := fs w; tmpdir := tmpdir w; rng := rng w; provider_calls := provider_calls w;
     completion_calls := completion_calls w; log := log w ++ [(l, m)]; ui := ui w;
     stdout := stdout w |}.

Definition add_ui (c : UiCall) (w : World) : World :=
  {| fs := fs w; tmpdir := tmpdir w; rng := rng w; provider_calls := provider_calls w;
     completion_calls := completion_calls w; log := log w; ui := ui w ++ [c];
     stdout := stdout w |}.

Definition add_stdout (s : pystr) (w : World) : World :=
  {| fs := fs w; tmpdir := tmpdir w; rng := rng w; provider_calls := provider_calls w;
     completion_calls := completion_calls w; log := log w; ui := ui w;
     stdout := stdout w ++ [s] |}.

(** ** Computations: state passing with exceptions *)

Module Py.

Definition M (A : Type) : Type := World -> Result A * World.

Definition ret {A} (a : A) : M A := fun w => (Ok a, w).

Definition raise {A} (e : Exn) : M A := fun w => (Raise e, w).

Definition bind {A B} (m : M A) (f : A -> M B) : M B :=
  fun w => match m w with
           | (Ok a, w') => f a w'
           | (Raise e, w') => (Raise e, w')
           end.

(** [try: body  except Exception as e: handler e]. *)
Definition try_except {A} (body : M A) (handler : Exn -> M A) : M A :=
  fun w => match body w with
           | (Ok a, w') => (Ok a, w')
           | (Raise e, w') => handler e w'
           end.

(** [try: body  finally: cleanup]: the cleanup always runs; when it
    raises, its exception replaces the outcome of the body. *)
Definition try_finally {A} (body : M A) (cleanup : M unit) : M A :=
  fun w => match body w with
           | (r, w') => match cleanup w' with
                        | (Ok _, w'') => (r, w'')
                        | (Raise e, w'') => (Raise e, w'')
                        end
           end.

Definition lift {A} (r : Result A) : M A := fun w => (r, w).

Definition logging (l : Level) (m : LogMsg) : M unit :=
  fun w => (Ok tt, add_log l m w).

Definition streamlit (c : UiCall) : M unit :=
  fun w => (Ok tt, add_ui c w).

Definition print (s : pystr) : M unit :=
  fun w => (Ok tt, add_stdout s w).

End Py.
Import Py.

Notation "'let*' x := m 'in' k" := (bind m (fun x => k))
  (at level 10, x pattern, m at level 100, k at level 200).
Notation "m ;; k" := (bind m (fun _ => k))
  (at level 100, k at level 200, right associativity).

(** ** Library calls acting on the world *)

(** The string form of [tempfile.gettempdir()]. *)
Definition gettempdir (w : World) : pystr :=
  [Fs.sep] ++ join [Fs.sep] (tmpdir w).

(** The retry loop of [tempfile.mkdtemp]: a name that exists already
    is skipped, any other failure of [os.mkdir] is raised. *)
Fixpoint mkdtemp_loop (draws : list N) (w : World) : Result pystr * World :=
  match draws with
  | [] => (Raise {| exc_class := FileExistsError;
                    exc_str := py "[Errno 17] No usable temporary directory name found" |},
           set_rng [] w)
  | seed :: rest =>
      let file := Fs.os_path_join (gettempdir w) (Fs.candidate_name seed) in
      match Fs.os_mkdir (fs w) file with
      | Ok t => (Ok file, set_fs t (set_rng rest w))
      | Raise e =>
          if is_file_exists e then mkdtemp_loop rest w
          else (Raise e, set_rng rest w)
      end
  end.

Definition mkdtemp : M pystr := fun w => mkdtemp_loop (rng w) w.

(** [with open(path, 'wb') as f: f.write(data)]. *)
Definition open_write (path : pystr) (data : pybytes) : M unit :=
  fun w => match Fs.write_file (fs w) path data with
           | Ok t => (Ok tt, set_fs t w)
           | Raise e => (Raise e, w)
           end.

Definition shutil_rmtree (path : pystr) : M unit :=
  fun w => match Fs.rmtree (fs w) path with
           | Ok t => (Ok tt, set_fs t w)
           | Raise e => (Raise e, w)
           end.

(** ** The external capabilities and the configuration *)

Record Env := {
  (** [subliminal.scan_video] on an existing path. *)
  scan_video : pystr -> Result Video;
  (** The language codes [babelfish.Language] accepts. *)
  babelfish_known : pystr -> bool;
  (** [subliminal.download_best_subtitles]: its answer to the n-th
      call, as the entry of the returned mapping for the one video
      passed ([None] when the mapping has no entry for it). *)
  download_best_subtitles : nat -> ProviderCall -> Result (option (list Subtitle));
  (** [openai.chat.completions.create]: its answer to the n-th call. *)
  chat_completions_create : nat -> CompletionRequest -> Result Response;
  OPEN_SUBTITLES_USERNAME : option pystr;
  OPEN_SUBTITLES_PASSWORD : option pystr;
  OPENROUTER_API_KEY : option pystr;
  OPENROUTER_MODEL : pystr
}.

(** ** [search_and_download_subtitles] *)

Section Search.

Variable E : Env.

(** [Language(l)]. The message formats the code with [%r]; it is
    written here as [repr] gives it for a code without quotes,
    backslashes and unprintable characters. *)
Definition Language (l : pystr) : Result pystr :=
  if babelfish_known E l then Ok l
  else Raise {| exc_class := ValueError;
                exc_str := py "'" ++ l ++ py "' is not a valid language" |}.

(** [{Language(l) for l in languages}]. *)
Fixpoint language_set (languages : list pystr) : Result (gset pystr) :=
  match languages with
  | [] => Ok ∅
  | l :: rest =>
      match Language l with
      | Raise e => Raise e
      | Ok a => match language_set rest with
                | Raise e => Raise e
                | Ok s => Ok ({[a]} ∪ s)
                end
      end
  end.

Definition call_download_best_subtitles (c : ProviderCall) : M (option (list Subtitle)) :=
  fun w => (download_best_subtitles E (length (provider_calls w)) c, add_provider_call c w).

(** [subtitles.get(video, [])]. *)
Definition get_or_empty (entry : option (list Subtitle)) : list Subtitle :=
  match entry with
  | Some subs => subs
  | None => []
  end.

(** The loop that organises the matches by language code. *)
Fixpoint organize (subs : list Subtitle) (results : Results) : M Results :=
  match subs with
  | [] => ret results
  | sub :: rest =>
      let results := <[language_alpha3 sub := sub]> results in
      logging DEBUG (SubtitleFound (provider_name sub) (sub_id sub) (language_alpha3 sub)) ;;
      organize rest results
  end.

(** Assignments to the attributes of the scanned video. *)
Definition with_title (video : Video) (title : pystr) : Video :=
  {| v_name := v_name video; v_guessed_episode := v_guessed_episode video;
     v_title := Some title; v_year := v_year video; v_series := v_series video;
     v_season := v_season video; v_episode := v_episode video |}.

Definition with_year (video : Video) (year : Z) : Video :=
  {| v_name := v_name video; v_guessed_episode := v_guessed_episode video;
     v_title := v_title video; v_year := Some year; v_series := v_series video;
     v_season := v_season video; v_episode := v_episode video |}.

Definition with_series (video : Video) (series : pystr) : Video :=
  {| v_name := v_name video; v_guessed_episode := v_guessed_episode video;
     v_title := v_title video; v_year := v_year video; v_series := Some series;
     v_season := v_season video; v_episode := v_episode video |}.

Definition with_season (video : Video) (season : option Z) : Video :=
  {| v_name := v_name video; v_guessed_episode := v_guessed_episode video;
     v_title := v_title video; v_year := v_year video; v_series := v_series video;
     v_season := season; v_episode := v_episode video |}.

(** The exception of an assignment to a property without a setter. *)
Definition episode_has_no_setter : Exn :=
  {| exc_class := AttributeError;
     exc_str := py "property 'episode' of 'Episode' object has no setter" |}.

(** [video.episode = episode]. On a video that the scan made an
    object of class [Episode], [episode] is a property computed from
    the list [episodes] and cannot be assigned; on a [Movie] object the
    assignment creates the attribute. *)
Definition set_episode (video : Video) (episode : option Z) : Result Video :=
  if v_guessed_episode video
  then Raise episode_has_no_setter
  else Ok {| v_name := v_name video; v_guessed_episode := v_guessed_episode video;
             v_title := v_title video; v_year := v_year video; v_series := v_series video;
             v_season := v_season video; v_episode := episode |}.

(** The assignments to the scanned video, in the order of the
    source. *)
Definition set_metadata (video : Video) (title : pystr) (year : Z) (media_type : pystr)
    (season episode : option Z) : Result Video :=
  let video := with_title video title in
  let video := with_year video year in
  if bool_decide (media_type = py "episode")
  then
    let video := with_series video title in
    let video := with_season video season in
    set_episode video episode
  else Ok video.

(** [provider_configs or {}]. *)
Definition configs_or_empty (provider_configs : option (gmap pystr Credentials))
    : gmap pystr Credentials :=
  match provider_configs with
  | Some c => c
  | None => ∅
  end.

(** The body of the [try] statement. *)
Definition search_body (dummy_path title : pystr) (year : Z) (media_type : pystr)
    (languages providers_list : list pystr) (season episode : option Z)
    (provider_configs : option (gmap pystr Credentials)) : M Results :=
  open_write dummy_path (py "dummy") ;;
  logging DEBUG (DummyFileCreated dummy_path) ;;
  let* video := lift (scan_video E dummy_path) in
  let* video := lift (set_metadata video title year media_type season episode) in
  (if bool_decide (media_type = py "episode")
   then logging DEBUG (EpisodeMetadataSet season episode)
   else ret tt) ;;
  let* langs := lift (language_set languages) in
  logging DEBUG (SearchingLanguages languages) ;;
  let* subtitles := call_download_best_subtitles
                      {| pc_video := video; pc_languages := langs;
                         pc_providers := providers_list;
                         pc_configs := configs_or_empty provider_configs |} in
  logging DEBUG DownloadCompleted ;;
  organize (get_or_empty subtitles) ∅.

Definition search_and_download_subtitles (title : pystr) (year : Z) (media_type : pystr)
    (languages providers_list : list pystr) (season episode : option Z)
    (provider_configs : option (gmap pystr Credentials)) : M Results :=
  logging DEBUG (StartingSearch title year media_type) ;;
  let* temp_dir := mkdtemp in
  let dummy_path := Fs.os_path_join temp_dir (title ++ py ".mkv") in
  logging DEBUG (TempDirCreated temp_dir) ;;
  try_finally
    (try_except
       (search_body dummy_path title year media_type languages providers_list
          season episode provider_configs)
       (fun e => logging ERROR (SearchError (exc_str e)) ;; raise e))
    (shutil_rmtree temp_dir ;; logging DEBUG (TempDirRemoved temp_dir)).

End Search.

(** ** [enhance_subtitles] *)

Section Enhance.

Variable E : Env.

Definition prompt_head : pystr := py "
Enhance the following subtitle text to improve naturalness, fluency, and clarity while preserving the original meaning.
IMPORTANT: Return only the SRT-formatted subtitles exactly as requested (with timing codes and numbering) and do not include any extra explanation or text.

".

Definition prompt_tail : pystr := py "

Provide the result in SRT format.
    ".

Definition make_prompt (sub_content : pystr) : pystr :=
  prompt_head ++ sub_content ++ prompt_tail.

Definition base_url : pystr := py "https://openrouter.ai/api/v1".

Definition make_request (api_key sub_content : pystr) : CompletionRequest :=
  {| rq_base_url := base_url;
     rq_api_key := api_key;
     rq_model := OPENROUTER_MODEL E;
     rq_messages :=
       [ (py "system", py "You are a professional subtitle translator and editor.");
         (py "user", make_prompt sub_content) ];
     rq_temperature := 3 # 10;
     rq_max_tokens := 3000 |}.

Definition call_create (rq : CompletionRequest) : M Response :=
  fun w => (chat_completions_create E (length (completion_calls w)) rq,
            add_completion_call rq w).

(** [response.strip()]: the method exists on a [str]; on a
    [ChatCompletion] object the attribute lookup fails. *)
Definition call_strip (response : Response) : Result pystr :=
  match response with
  | PlainText text => Ok (strip text)
  | ChatCompletion _ =>
      Raise {| exc_class := AttributeError;
               exc_str := py "'ChatCompletion' object has no attribute 'strip'" |}
  end.

(** The statement left as a comment in the program:
    [response.choices[0].message.content.strip()]. *)
Definition commented_extraction (response : Response) : option pystr :=
  match response with
  | ChatCompletion (c :: _) => Some (strip (message_content c))
  | _ => None
  end.

Definition missing_key_message : pystr :=
  py "Missing OpenAI API key. Please set the OPENROUTER_API_KEY environment variable.".

Definition enhance_subtitles (sub_content : pystr) : M (option pystr) :=
  match OPENROUTER_API_KEY E with
  | Some (c :: key) =>
      let api_key := c :: key in
      logging DEBUG (PromptPrepared (slice_to 100 (make_prompt sub_content))) ;;
      try_except
        (let* response := call_create (make_request api_key sub_content) in
         let* enhanced_subtitles := lift (call_strip response) in
         logging DEBUG ResponseReceived ;;
         logging DEBUG ValidatedSuccessfully ;;
         print enhanced_subtitles ;;
         ret (Some enhanced_subtitles))
        (fun e =>
           streamlit (st_error (py "AI Enhancement Error: " ++ exc_str e)) ;;
           logging ERROR (EnhanceError (exc_str e)) ;;
           ret None)
  | _ =>
      streamlit (st_error missing_key_message) ;;
      logging ERROR ApiKeyNotFound ;;
      ret None
  end.

End Enhance.

(** ** The search branch of [main] *)

(** The table of supported languages: code and display name. *)
Definition LANGUAGES : list (pystr * pystr) :=
  [ (py "eng", py "English"); (py "fas", py "Persian"); (py "spa", py "Spanish");
    (py "fra", py "French"); (py "deu", py "German"); (py "zho", py "Chinese");
    (py "ara", py "Arabic") ].

Definition available_providers : list pystr :=
  [py "opensubtitles"; py "podnapisi"; py "addic7ed"].

(** The values of the input widgets on one run of the script.
    [f_season] and [f_episode] are bound only when the media type is
    [episode] and are not read otherwise. *)
Record Form := {
  f_media_type : pystr;
  f_title : pystr;
  f_year : Z;
  f_season : Z;
  f_episode : Z;
  selected_langs : list pystr;
  selected_providers : list pystr
}.

(** [st.session_state] after its initialisation. *)
Record Session := {
  search_cache : gmap pystr Results;
  enhanced_subtitles : gmap pystr pystr
}.

(** What the widgets can deliver: one of the two media types, a year
    from 1900 to the current one, season and episode numbers from 1,
    languages and providers among the options offered. *)
Definition from_widgets (current_year : Z) (f : Form) : Prop :=
  (f_media_type f = py "movie" \/ f_media_type f = py "episode") /\
  1900 <= f_year f <= current_year /\
  1 <= f_season f /\ 1 <= f_episode f /\
  (forall l, l ∈ selected_langs f -> l ∈ LANGUAGES.*1) /\
  (forall p, p ∈ selected_providers f -> p ∈ available_providers).

Definition new_session : Session :=
  {| search_cache := ∅; enhanced_subtitles := ∅ |}.

Definition is_episode (f : Form) : bool :=
  bool_decide (f_media_type f = py "episode").

Definition cache_key (f : Form) : pystr :=
  let cache_key :=
    f_title f ++ py "_" ++ f_media_type f ++ py "_" ++ str_of_int (f_year f) ++ py "_"
    ++ join (py "_") (selected_langs f) ++ py "_" ++ join (py "_") (selected_providers f) in
  if is_episode f
  then cache_key ++ py "_" ++ str_of_int (f_season f) ++ py "_" ++ str_of_int (f_episode f)
  else cache_key.

Definition missing_required (f : Form) : bool :=
  bool_decide (f_title f = []) || bool_decide (selected_langs f = [])
  || bool_decide (selected_providers f = []).

Section Main.

Variable E : Env.

Definition build_provider_configs (f : Form) : gmap pystr Credentials :=
  if bool_decide (py "opensubtitles" ∈ selected_providers f)
  then {[ py "opensubtitles" := {| username := OPEN_SUBTITLES_USERNAME E;
                                   password := OPEN_SUBTITLES_PASSWORD E |} ]}
  else ∅.

(** The call of the aggregator made from [main]. *)
Definition search_for (f : Form) : M Results :=
  let season_num := if is_episode f then Some (f_season f) else None in
  let episode_num := if is_episode f then Some (f_episode f) else None in
  search_and_download_subtitles E (f_title f) (f_year f) (f_media_type f)
    (selected_langs f) (selected_providers f) season_num episode_num
    (Some (build_provider_configs f)).

Definition store (key : pystr) (results : Results) (s : Session) : Session :=
  {| search_cache := <[key := results]> (search_cache s);
     enhanced_subtitles := enhanced_subtitles s |}.

(** Cache lookup, search and caching for the generated key. *)
Definition cached_search (f : Form) (key : pystr) (s : Session) : M (Session * Results) :=
  match search_cache s !! key with
  | Some results =>
      logging DEBUG UsingCachedResults ;;
      ret (s, results)
  | None =>
      try_except
        (let* results := search_for f in
         let s := store key results s in
         logging DEBUG ResultsCached ;;
         ret (s, results))
        (fun e =>
           streamlit (st_error (py "Error: " ++ exc_str e)) ;;
           logging ERROR (SearchFailed (exc_str e)) ;;
           ret (s, ∅))
  end.

(** One run of the script with the "Search Subtitles" button pressed,
    up to the point where the results are rendered. The outcome is
    [None] when a required field is missing. *)
Definition search_clicked (f : Form) (s : Session) : M (Session * option Results) :=
  if missing_required f
  then
    streamlit (st_error (py "Please fill all required fields")) ;;
    logging WARNING MissingFields ;;
    ret (s, None)
  else
    let key := cache_key f in
    logging DEBUG (CacheKeyGenerated key) ;;
    let* (s, results) := cached_search f key s in
    (if bool_decide (results = ∅)
     then streamlit (st_warning (py "No subtitles found")) ;; logging INFO NoSubtitlesFound
     else ret tt) ;;
    ret (s, Some results).

(** A sequence of such runs within one session. *)
Fixpoint session_run (forms : list Form) (s : Session)
    : M (Session * list (option Results)) :=
  match forms with
  | [] => ret (s, [])
  | f :: rest =>
      let* (s, out) := search_clicked f s in
      let* (s, outs) := session_run rest s in
      ret (s, out :: outs)
  end.

End Main.

(** Number of times the aggregator has been entered, read off the log. *)
Definition is_search_start (r : Level * LogMsg) : bool :=
  match r.2 with
  | StartingSearch _ _ _ => true
  | _ => false
  end.

Definition search_invocations (w : World) : nat :=
  length (List.filter is_search_start (log w)).

(** ** Concrete worlds and capabilities used in the examples *)

Module Demo.

Definition scan (path : pystr) : Result Video :=
  Ok {| v_name := path; v_guessed_episode := false; v_title := None; v_year := None;
        v_series := None; v_season := None; v_episode := None |}.

Definition sub (lang provider id : string) : Subtitle :=
  {| language_alpha3 := py lang; provider_name := py provider; sub_id := py id;
     content := py "1"; hearing_impaired := None |}.

Definition network_down : Exn :=
  {| exc_class := OtherError (py "ConnectionError"); exc_str := py "network unreachable" |}.

Definition rate_limited : Exn :=
  {| exc_class := OtherError (py "RateLimitError"); exc_str := py "Error code: 429" |}.

(** An environment built from a provider and a completion capability. *)
Definition env (download : nat -> ProviderCall -> Result (option (list Subtitle)))
    (create : nat -> CompletionRequest -> Result Response) (api_key : option pystr) : Env :=
  {| scan_video := scan;
     babelfish_known := fun l => bool_decide (l ∈ LANGUAGES.*1);
     download_best_subtitles := download;
     chat_completions_create := create;
     OPEN_SUBTITLES_USERNAME := None;
     OPEN_SUBTITLES_PASSWORD := None;
     OPENROUTER_API_KEY := api_key;
     OPENROUTER_MODEL := py "deepseek/deepseek-r1-zero:free" |}.

Definition no_completion (n : nat) (rq : CompletionRequest) : Result Response :=
  Raise rate_limited.

(** A provider that always answers with the same matches. *)
Definition always (subs : list Subtitle) (n : nat) (c : ProviderCall)
    : Result (option (list Subtitle)) :=
  Ok (Some subs).

(** A provider that fails on its first call and answers afterwards. *)
Definition flaky (subs : list Subtitle) (n : nat) (c : ProviderCall)
    : Result (option (list Subtitle)) :=
  match n with
  | O => Raise network_down
  | S _ => Ok (Some subs)
  end.

(** A machine with the directories [/tmp] and [/home]. *)
Definition world : World :=
  {| fs := {[ [py "tmp"] := Fs.Dir; [py "home"] := Fs.Dir ]};
     tmpdir := [py "tmp"];
     rng := [0; 1; 2]%N;
     provider_calls := [];
     completion_calls := [];
     log := [];
     ui := [];
     stdout := [] |}.

Definition form (title : string) (langs providers : list string) : Form :=
  {| f_media_type := py "movie"; f_title := py title; f_year := 2010;
     f_season := 1; f_episode := 1;
     selected_langs := map py langs; selected_providers := map py providers |}.

Definition eng1 : Subtitle := sub "eng" "opensubtitles" "1".
Definition eng2 : Subtitle := sub "eng" "podnapisi" "2".
Definition fra7 : Subtitle := sub "fra" "podnapisi" "7".

(** The languages and providers selected in the runs below. *)
Definition only_eng : list pystr := [py "eng"].
Definition only_opensubtitles : list pystr := [py "opensubtitles"].

(** The environment whose provider always answers with one English
    match. *)
Definition env1 : Env := env (always [eng1]) no_completion None.

(** A search for English answered with one English match. *)
Definition plain_run : Result Results * World :=
  search_and_download_subtitles env1
    (py "Inception") 2010 (py "movie") only_eng only_opensubtitles None None None world.

(** A search for English answered with a French match as well. *)
Definition extras_run : Result Results * World :=
  search_and_download_subtitles (env (always [eng1; fra7]) no_completion None)
    (py "Inception") 2010 (py "movie") only_eng only_opensubtitles None None None world.

(** A search answered with two English matches around a French one. *)
Definition duplicates_run : Result Results * World :=
  search_and_download_subtitles (env (always [eng1; fra7; eng2]) no_completion None)
    (py "Inception") 2010 (py "movie") [py "eng"; py "fra"] only_opensubtitles
    None None None world.

(** An episode search with season 0. *)
Definition season_zero_run : Result Results * World :=
  search_and_download_subtitles env1
    (py "Show") 2010 (py "episode") only_eng only_opensubtitles (Some 0) (Some 1) None world.

(** A search whose title is an absolute path. *)
Definition absolute_title_run : Result Results * World :=
  search_and_download_subtitles env1
    (py "/home/x") 2010 (py "movie") only_eng only_opensubtitles None None None world.

(** A search whose title climbs out of the temporary directory. *)
Definition dotdot_title_run : Result Results * World :=
  search_and_download_subtitles env1
    (py "../x") 2010 (py "movie") only_eng only_opensubtitles None None None world.

(** A caption block with blank space around it. *)
Definition caption : pystr := py "  1
00:00:01,000 --> 00:00:02,000
Hello there.
 ".

Definition caption_trimmed : pystr := py "1
00:00:01,000 --> 00:00:02,000
Hello there.".

(** A completion capability that answers with a [ChatCompletion]
    object whose first choice carries the caption. *)
Definition completes (n : nat) (rq : CompletionRequest) : Result Response :=
  Ok (ChatCompletion [ {| message_content := caption |} ]).

(** A completion capability that answers with the caption as a [str]. *)
Definition answers_text (n : nat) (rq : CompletionRequest) : Result Response :=
  Ok (PlainText caption).

Definition api_key : option pystr := Some (py "sk-or-test").

Definition env_completes : Env := env (always [eng1]) completes api_key.
Definition env_text : Env := env (always [eng1]) answers_text api_key.
Definition env_rate_limited : Env := env (always [eng1]) no_completion api_key.
Definition env_flaky : Env := env (flaky [eng1]) no_completion None.

Definition completion_run : Result (option pystr) * World :=
  enhance_subtitles env_completes (py "1") world.

Definition text_run : Result (option pystr) * World :=
  enhance_subtitles env_text (py "1") world.

Definition inception : Form := form "Inception" ["eng"] ["opensubtitles"].

(** Two requests with the same selections made in a different order. *)
Definition eng_then_fra : Form :=
  form "Inception" ["eng"; "fra"] ["opensubtitles"; "podnapisi"].
Definition fra_then_eng : Form :=
  form "Inception" ["fra"; "eng"] ["podnapisi"; "opensubtitles"].

(** The request [eng_then_fra] with other values left in the season
    and episode slots. *)
Definition eng_then_fra_other_numbers : Form :=
  {| f_media_type := py "movie"; f_title := py "Inception"; f_year := 2010;
     f_season := 4; f_episode := 9;
     selected_langs := [py "eng"; py "fra"];
     selected_providers := [py "opensubtitles"; py "podnapisi"] |}.

(** The same search issued twice in a new session. *)
Definition twice_run : Result (Session * list (option Results)) * World :=
  session_run env1 [inception; inception] new_session world.

(** The same search issued three times while the provider fails on
    its first call. *)
Definition flaky_run : Result (Session * list (option Results)) * World :=
  session_run env_flaky [inception; inception; inception] new_session world.

End Demo.

(** ** Notions used to state the properties *)

(** The dictionary the organising loop builds from [results]. *)
Definition index_by_language (subs : list Subtitle) (results : Results) : Results :=
  foldl (fun results sub => <[language_alpha3 sub := sub]> results) results subs.

(** The last match of a collection that carries language [k]. *)
Definition last_with_language (k : pystr) (subs : list Subtitle) : option Subtitle :=
  last (List.filter (fun sub => bool_decide (language_alpha3 sub = k)) subs).

(** The log records of the organising loop. *)
Definition found_records (subs : list Subtitle) : list (Level * LogMsg) :=
  map (fun sub => (DEBUG, SubtitleFound (provider_name sub) (sub_id sub)
                            (language_alpha3 sub))) subs.

Definition add_logs (records : list (Level * LogMsg)) (w : World) : World :=
  {| fs := fs w; tmpdir := tmpdir w; rng := rng w; provider_calls := provider_calls w;
     completion_calls := completion_calls w; log := log w ++ records; ui := ui w;
     stdout := stdout w |}.

(** Two worlds that differ at most in the file system and the name
    generator. *)
Definition same_outside_fs (w w' : World) : Prop :=
  tmpdir w' = tmpdir w /\ provider_calls w' = provider_calls w /\
  completion_calls w' = completion_calls w /\ log w' = log w /\ ui w' = ui w /\
  stdout w' = stdout w.

(** Every directory of [t] is a directory of [t']. *)
Definition dirs_kept (t t' : Fs.tree) : Prop :=
  forall q, Fs.is_dir t q = true -> Fs.is_dir t' q = true.

(** The run from [w] to [w'] made exactly one call of the provider
    capability, with arguments [call], answered with [entry]. *)
Definition answered_with (E : Env) (w w' : World) (call : ProviderCall)
    (entry : option (list Subtitle)) : Prop :=
  provider_calls w' = provider_calls w ++ [call] /\
  download_best_subtitles E (length (provider_calls w)) call = Ok entry.

(** The answers of a session run, the number of provider calls and
    the number of times the aggregator was entered. *)
Definition session_summary (out : Result (Session * list (option Results)) * World)
    : option (list (option Results)) * nat * nat :=
  (match out.1 with
   | Ok (_, outs) => Some outs
   | Raise _ => None
   end,
   length (provider_calls out.2), search_invocations out.2).

(** Whether [g] is an accepted request with the cache key of [f]. *)
Definition asks_again (f g : Form) : bool :=
  negb (missing_required g) && bool_decide (cache_key g = cache_key f).

(** The requests of a sequence that are not of that kind. *)
Definition other_requests (f : Form) (forms : list Form) : list Form :=
  List.filter (fun g => negb (asks_again f g)) forms.

(** Every entry of the tree lies in a directory of the tree. *)
Definition well_formed (t : Fs.tree) : Prop :=
  forall p c, is_Some (t !! (p ++ [c])) -> Fs.is_dir t p = true.


(** ** Notions used to state the further properties *)

(** The pieces the cache key is joined from, after the title. *)
Definition request_tokens (f : Form) : list pystr :=
  [f_media_type f; str_of_int (f_year f)] ++ selected_langs f ++ selected_providers f
  ++ (if is_episode f then [str_of_int (f_season f); str_of_int (f_episode f)] else []).

Definition underscore : N := 95%N.

(** The characters of the decimal form of an [int]. *)
Definition is_int_char (c : N) : bool := ((48 <=? c) && (c <=? 57) || (c =? 45))%N.

Definition is_kind (t : pystr) : bool :=
  bool_decide (t = py "movie") || bool_decide (t = py "episode").

Definition is_code (t : pystr) : bool := bool_decide (t ∈ LANGUAGES.*1).

Definition is_provider (t : pystr) : bool := bool_decide (t ∈ available_providers).

(** The season and episode pieces of the key. *)
Definition number_tokens (f : Form) : list pystr :=
  if is_episode f then [str_of_int (f_season f); str_of_int (f_episode f)] else [].

(** A text that neither starts nor ends with white space. *)
Definition no_surrounding_space (t : pystr) : Prop :=
  match head t with
  | Some c => isspace c = false
  | None => True
  end /\
  match last t with
  | Some c => isspace c = false
  | None => True
  end.

(** ** Decoding the content of a subtitle *)

Module Utf8.

Definition in_range (lo hi b : N) : bool := ((lo <=? b) && (b <=? hi))%N.

Definition continuation (b : N) : bool := in_range 128 191 b.

(** The second byte of a three-byte form: [E0] needs [A0..BF] (no
    overlong form), [ED] needs [80..9F] (no surrogate). *)
Definition second_of_three (b0 b1 : N) : bool :=
  continuation b1 && negb (if (b1 <? 160)%N then (b0 =? 224)%N else (b0 =? 237)%N).

(** The second byte of a four-byte form: [F0] needs [90..BF], [F4]
    needs [80..8F]. *)
Definition second_of_four (b0 b1 : N) : bool :=
  continuation b1 && negb (if (b1 <? 144)%N then (b0 =? 240)%N else (b0 =? 244)%N).

Definition hex_digit (d : N) : N := (if d <? 10 then 48 + d else 87 + d)%N.

Definition hex2 (b : N) : pystr := [hex_digit (b / 16); hex_digit (b mod 16)].

(** [UnicodeDecodeError] for the bytes from [start], [len] of them,
    the first being [first]. *)
Definition codec_error (first start len : N) (reason : string) : Exn :=
  {| exc_class := OtherError (py "UnicodeDecodeError");
     exc_str :=
       py "'utf-8' codec can't decode "
       ++ (if (len =? 1)%N
           then py "byte 0x" ++ hex2 first ++ py " in position "
                ++ str_of_int (Z.of_N start)
           else py "bytes in position " ++ str_of_int (Z.of_N start) ++ py "-"
                ++ str_of_int (Z.of_N (start + len - 1)))
       ++ py ": " ++ py reason |}.

Definition invalid_start (b0 pos : N) : Exn := codec_error b0 pos 1 "invalid start byte".

Definition invalid_continuation (b0 pos len : N) : Exn :=
  codec_error b0 pos len "invalid continuation byte".

Definition unexpected_end (b0 pos len : N) : Exn :=
  codec_error b0 pos len "unexpected end of data".

Definition emit (c : N) (rest : Result pystr) : Result pystr :=
  match rest with
  | Ok t => Ok (c :: t)
  | Raise e => Raise e
  end.

(** Strict decoding from position [pos]. *)
Fixpoint decode_from (pos : N) (bs : pybytes) : Result pystr :=
  match bs with
  | [] => Ok []
  | b0 :: r0 =>
      if (b0 <? 128)%N then emit b0 (decode_from (pos + 1) r0)
      else if (b0 <? 194)%N then Raise (invalid_start b0 pos)
      else if (b0 <? 224)%N then
        match r0 with
        | [] => Raise (unexpected_end b0 pos 1)
        | b1 :: r1 =>
            if continuation b1
            then emit ((b0 - 192) * 64 + (b1 - 128))%N (decode_from (pos + 2) r1)
            else Raise (invalid_continuation b0 pos 1)
        end
      else if (b0 <? 240)%N then
        match r0 with
        | [] => Raise (unexpected_end b0 pos 1)
        | b1 :: r1 =>
            if second_of_three b0 b1 then
              match r1 with
              | [] => Raise (unexpected_end b0 pos 2)
              | b2 :: r2 =>
                  if continuation b2
                  then emit ((b0 - 224) * 4096 + (b1 - 128) * 64 + (b2 - 128))%N
                         (decode_from (pos + 3) r2)
                  else Raise (invalid_continuation b0 pos 2)
              end
            else Raise (invalid_continuation b0 pos 1)
        end
      else if (b0 <? 245)%N then
        match r0 with
        | [] => Raise (unexpected_end b0 pos 1)
        | b1 :: r1 =>
            if second_of_four b0 b1 then
              match r1 with
              | [] => Raise (unexpected_end b0 pos 2)
              | b2 :: r2 =>
                  if continuation b2 then
                    match r2 with
                    | [] => Raise (unexpected_end b0 pos 3)
                    | b3 :: r3 =>
                        if continuation b3
                        then emit ((b0 - 240) * 262144 + (b1 - 128) * 4096
                                   + (b2 - 128) * 64 + (b3 - 128))%N
                               (decode_from (pos + 4) r3)
                        else Raise (invalid_continuation b0 pos 3)
                    end
                  else Raise (invalid_continuation b0 pos 2)
              end
            else Raise (invalid_continuation b0 pos 1)
        end
      else Raise (invalid_start b0 pos)
  end.

(** [content.decode('utf-8')]. *)
Definition decode (content : pybytes) : Result pystr := decode_from 0 content.


End Utf8.

(** ** The page: rendering the results and the buttons *)

Inductive DownloadData :=
| BytesData (data : pybytes)
| TextData (data : pystr).

(** The calls that build the page, in the order they are made. *)
Inductive PageCall :=
| pg_subheader (body : pystr)
| pg_markdown (body : pystr) (unsafe_allow_html : bool)
| pg_write (body : pystr)
| pg_download_button (label : pystr) (data : DownloadData) (file_name mime : pystr)
| pg_button (label key : pystr) (on_click : bool)
| pg_text_area (label value : pystr) (height : Z)
| pg_container_enter
| pg_container_exit
| pg_spinner_enter (text : pystr)
| pg_spinner_exit
| pg_success (body : pystr).

(** The variables of [main] that the button callback refers to. The
    callback reads them when it is called, not when it is defined. *)
Record Frame := {
  cell_lang : option pystr;
  cell_sub : option Subtitle
}.

Definition unbound : Frame := {| cell_lang := None; cell_sub := None |}.

(** What a run of the script works on. *)
Record Stage := {
  st_world : World;
  st_session : Session;
  st_frame : Frame;
  st_page : list PageCall
}.

Module Pg.

Definition P (A : Type) : Type := Stage -> Result A * Stage.

Definition ret {A} (a : A) : P A := fun st => (Ok a, st).

Definition bind {A B} (m : P A) (f : A -> P B) : P B :=
  fun st => match m st with
            | (Ok a, st') => f a st'
            | (Raise e, st') => (Raise e, st')
            end.

Definition lift {A} (r : Result A) : P A := fun st => (r, st).

(** A computation on the world alone. *)
Definition world {A} (m : M A) : P A :=
  fun st => match m (st_world st) with
            | (r, w') => (r, {| st_world := w'; st_session := st_session st;
                                st_frame := st_frame st; st_page := st_page st |})
            end.

Definition emit (c : PageCall) : P unit :=
  fun st => (Ok tt, {| st_world := st_world st; st_session := st_session st;
                       st_frame := st_frame st; st_page := st_page st ++ [c] |}).

Definition session : P Session := fun st => (Ok (st_session st), st).

Definition set_session (s : Session) : P unit :=
  fun st => (Ok tt, {| st_world := st_world st; st_session := s;
                       st_frame := st_frame st; st_page := st_page st |}).

Definition set_frame (fr : Frame) : P unit :=
  fun st => (Ok tt, {| st_world := st_world st; st_session := st_session st;
                       st_frame := fr; st_page := st_page st |}).

Definition frame : P Frame := fun st => (Ok (st_frame st), st).

(** [with manager: body]: the manager is left on every path. *)
Definition within {A} (enter leave : PageCall) (body : P A) : P A :=
  fun st => match emit enter st with
            | (_, st1) =>
                match body st1 with
                | (r, st2) => (r, (emit leave st2).2)
                end
            end.

End Pg.

Notation "'let+' x := m 'in' k" := (Pg.bind m (fun x => k))
  (at level 10, x pattern, m at level 100, k at level 200).
Notation "m ;+ k" := (Pg.bind m (fun _ => k))
  (at level 100, k at level 200, right associativity).

Definition double_quote : N := 34%N.

(** The opening tag written for a box of the page. *)
Definition div_open (class : string) : pystr :=
  py "<div class=" ++ [double_quote] ++ py class ++ [double_quote] ++ py ">".

Definition div_close : pystr := py "</div>".

Definition style_sheet : pystr := py "
                <style>
                .subtitle-box {
                    background-color: #f0f2f6;
                    border-radius: 10px;
                    padding: 15px;
                    margin: 10px 0;
                    border: 1px solid #ddd;
                }
                .enhancement-box {
                    background-color: #e8f5e9;
                    border-radius: 10px;
                    padding: 15px;
                    margin: 10px 0;
                    border: 1px solid #93c47d;
                }
                </style>
                ".

(** [d[key]] on the language table. *)
Fixpoint table_get (d : list (pystr * pystr)) (key : pystr) : Result pystr :=
  match d with
  | [] => Raise {| exc_class := OtherError (py "KeyError");
                   exc_str := py "'" ++ key ++ py "'" |}
  | (k, v) :: rest => if decide (k = key) then Ok v else table_get rest key
  end.

Arguments table_get : simpl never.

(** [str(b)] for a [bool]. *)
Definition str_of_bool (b : bool) : pystr := if b then py "True" else py "False".

(** The widget keys and the file names built from the language. *)
Definition enhance_key (lang : pystr) : pystr := py "enhance_" ++ lang.
Definition hide_key (lang : pystr) : pystr := py "hide_" ++ lang.
Definition original_name (title lang : pystr) : pystr :=
  title ++ py "." ++ lang ++ py ".srt".
Definition enhanced_name (title lang : pystr) : pystr :=
  title ++ py "." ++ lang ++ py "_enhanced.srt".
Arguments enhance_key : simpl never.
Arguments hide_key : simpl never.
Arguments original_name : simpl never.
Arguments enhanced_name : simpl never.

(** [for x in xs: body x]. *)
Fixpoint for_each {A} (xs : list A) (body : A -> Pg.P unit) : Pg.P unit :=
  match xs with
  | [] => Pg.ret tt
  | x :: rest => body x ;+ for_each rest body
  end.

Definition assign_lang (lang : pystr) : Pg.P unit :=
  let+ fr := Pg.frame in
  Pg.set_frame {| cell_lang := Some lang; cell_sub := cell_sub fr |}.

Definition assign_sub (sub : Subtitle) : Pg.P unit :=
  let+ fr := Pg.frame in
  Pg.set_frame {| cell_lang := cell_lang fr; cell_sub := Some sub |}.

(** [del st.session_state.enhanced_subtitles[lang]]. *)
Definition forget_enhanced (lang : pystr) : Pg.P unit :=
  let+ s := Pg.session in
  Pg.set_session {| search_cache := search_cache s;
                    enhanced_subtitles := delete lang (enhanced_subtitles s) |}.

(** [st.session_state.enhanced_subtitles[lang] = text]. *)
Definition remember_enhanced (lang text : pystr) : Pg.P unit :=
  let+ s := Pg.session in
  Pg.set_session {| search_cache := search_cache s;
                    enhanced_subtitles := <[lang := text]> (enhanced_subtitles s) |}.

(** The box of a found subtitle. *)
Definition subtitle_box (title lang : pystr) (sub : Subtitle) : Pg.P unit :=
  Pg.within pg_container_enter pg_container_exit
    (Pg.emit (pg_markdown (div_open "subtitle-box") true) ;+
     let+ name := Pg.lift (table_get LANGUAGES lang) in
     Pg.emit (pg_markdown (py "**" ++ name ++ py " Subtitle**") false) ;+
     Pg.emit (pg_write (py "- Provider: " ++ provider_name sub)) ;+
     Pg.emit (pg_write (py "- ID: " ++ sub_id sub)) ;+
     match hearing_impaired sub with
     | Some b => Pg.emit (pg_write (py "- Closed Captions: " ++ str_of_bool b))
     | None => Pg.ret tt
     end ;+
     let filename := original_name title lang in
     Pg.emit (pg_download_button (py "Download Original") (BytesData (content sub))
                filename (py "text/plain")) ;+
     Pg.emit (pg_button (py "Enhance with AI") (enhance_key lang) true) ;+
     Pg.emit (pg_markdown div_close true)).

(** The box of an enhanced subtitle, with its button to hide it. *)
Definition enhancement_box (title lang enhanced_text : pystr)
    (hide_pressed : pystr -> bool) : Pg.P unit :=
  Pg.within pg_container_enter pg_container_exit
    (Pg.emit (pg_markdown (div_open "enhancement-box") true) ;+
     let+ name := Pg.lift (table_get LANGUAGES lang) in
     Pg.emit (pg_subheader (py "Enhanced " ++ name ++ py " Subtitle")) ;+
     Pg.emit (pg_text_area (py "Improved Subtitles") enhanced_text 300) ;+
     Pg.emit (pg_download_button (py "Download Enhanced") (TextData enhanced_text)
                (enhanced_name title lang) (py "text/plain")) ;+
     Pg.emit (pg_button (py "Hide Enhanced") (hide_key lang) false) ;+
     (if hide_pressed (hide_key lang)
      then forget_enhanced lang ;+ Pg.world (logging DEBUG (EnhancedHidden lang))
      else Pg.ret tt) ;+
     Pg.emit (pg_markdown div_close true)).

(** One turn of the loop over the selected languages. *)
Definition render_language (title : pystr) (results : Results)
    (hide_pressed : pystr -> bool) (lang : pystr) : Pg.P unit :=
  assign_lang lang ;+
  match results !! lang with
  | None => Pg.ret tt
  | Some sub =>
      assign_sub sub ;+
      Pg.world (logging DEBUG (DisplayingSubtitle lang)) ;+
      subtitle_box title lang sub ;+
      let+ s := Pg.session in
      match enhanced_subtitles s !! lang with
      | None => Pg.ret tt
      | Some enhanced_text => enhancement_box title lang enhanced_text hide_pressed
      end
  end.

(** The branch of [main] that shows a non-empty result. *)
Definition render_results (title : pystr) (selected_langs : list pystr) (results : Results)
    (hide_pressed : pystr -> bool) : Pg.P unit :=
  Pg.emit (pg_subheader (py "Search Results:")) ;+
  Pg.emit (pg_markdown style_sheet true) ;+
  for_each selected_langs (render_language title results hide_pressed).

Section Page.

Variable E : Env.

(** The callback of the "Enhance with AI" buttons, given the values
    that the variables [lang] and [sub] have when it is called. *)
Definition Button_to_enhance_subtitle_with_AI (lang : pystr) (sub : Subtitle) : Pg.P unit :=
  Pg.world (logging INFO (EnhanceClicked lang)) ;+
  Pg.within (pg_spinner_enter (py "Processing with AI...")) pg_spinner_exit
    (let+ text := Pg.lift (Utf8.decode (content sub)) in
     let+ enhanced := Pg.world (enhance_subtitles E text) in
     match enhanced with
     | Some (c :: rest) =>
         remember_enhanced lang (c :: rest) ;+
         Pg.emit (pg_success (py "AI enhancement completed successfully!")) ;+
         Pg.world (logging INFO EnhancementCompleted)
     | _ =>
         Pg.world (streamlit (st_error (py "AI enhancement failed. Please try again."))) ;+
         Pg.world (logging ERROR EnhancementFailed)
     end).

(** One run of the script with the "Search Subtitles" button pressed:
    the search branch and, for a non-empty result, the rendering.
    [hide_pressed] tells for each key whether that button reports a
    press in this run. A run starts with the variables of [main]
    unbound and an empty page. *)
Definition search_page (f : Form) (hide_pressed : pystr -> bool) (s : Session) (w : World)
    : Result unit * Stage :=
  match search_clicked E f s w with
  | (Ok (s', Some results), w') =>
      let st := {| st_world := w'; st_session := s'; st_frame := unbound; st_page := [] |} in
      if bool_decide (results = ∅) then (Ok tt, st)
      else render_results (f_title f) (selected_langs f) results hide_pressed st
  | (Ok (s', None), w') =>
      (Ok tt, {| st_world := w'; st_session := s'; st_frame := unbound; st_page := [] |})
  | (Raise e, w') =>
      (Raise e, {| st_world := w'; st_session := s; st_frame := unbound; st_page := [] |})
  end.

(** The keys of the buttons of a page that carry the callback. *)
Definition enhance_keys (page : list PageCall) : list pystr :=
  omap (fun c => match c with
                 | pg_button _ key true => Some key
                 | _ => None
                 end) page.

(** What the user does next. *)
Inductive Interaction :=
| press_search (f : Form) (hide_pressed : pystr -> bool)
| press_enhance (key : pystr).

(** The stage a callback starts on: the world and the session of the
    last run, the variables of that run as it left them, a new page. *)
Definition next_page (st : Stage) : Stage :=
  {| st_world := st_world st; st_session := st_session st; st_frame := st_frame st;
     st_page := [] |}.

(** One interaction with the page that the last run left. A press on
    a button that is not on the page does nothing. *)
Definition interact (i : Interaction) (st : Stage) : Result unit * Stage :=
  match i with
  | press_search f hide_pressed => search_page f hide_pressed (st_session st) (st_world st)
  | press_enhance key =>
      if bool_decide (key ∈ enhance_keys (st_page st)) then
        match cell_lang (st_frame st), cell_sub (st_frame st) with
        | Some lang, Some sub => Button_to_enhance_subtitle_with_AI lang sub (next_page st)
        | _, _ => (Ok tt, st)
        end
      else (Ok tt, st)
  end.

(** A sequence of interactions; a run that ends with an exception
    leaves the stage it reached. *)
Fixpoint interactions (steps : list Interaction) (st : Stage) : Stage :=
  match steps with
  | [] => st
  | i :: rest => interactions rest (interact i st).2
  end.

End Page.

(** The stage of a new session. *)
Definition first_stage (w : World) : Stage :=
  {| st_world := w; st_session := new_session; st_frame := unbound; st_page := [] |}.

(** ** Notions used to state the properties of the page *)

(** The original subtitles a page offers for download: file name and
    data. *)
Definition offered_originals (page : list PageCall) : list (pystr * pybytes) :=
  omap (fun c => match c with
                 | pg_download_button _ (BytesData data) file_name _ => Some (file_name, data)
                 | _ => None
                 end) page.

(** The original of language [lang] as the page offers it, when the
    result has one. *)
Definition original_of (title : pystr) (results : Results) (lang : pystr)
    : option (pystr * pybytes) :=
  (fun sub => (original_name title lang, content sub)) <$> results !! lang.

(** The key of the enhance button of language [lang], when the result
    has a subtitle for it. *)
Definition enhance_key_of (results : Results) (lang : pystr) : option pystr :=
  (fun _ => enhance_key lang) <$> results !! lang.

(** Whether the rendering removes the enhanced text of [lang]. *)
Definition hidden (results : Results) (hide_pressed : pystr -> bool) (lang : pystr) : bool :=
  bool_decide (is_Some (results !! lang)) && hide_pressed (hide_key lang).

(** Every text of the enhancement cache is non-empty and has no white
    space around it. *)
Definition clean_enhanced (s : Session) : Prop :=
  forall lang text, enhanced_subtitles s !! lang = Some text ->
                    text <> [] /\ no_surrounding_space text.

(** The records the rendering loop writes to the log. *)
Definition is_render_record (r : Level * LogMsg) : bool :=
  match r with
  | (DEBUG, DisplayingSubtitle _) => true
  | (DEBUG, EnhancedHidden _) => true
  | _ => false
  end.

(** The languages of the display records of a log, in their order. *)
Definition displayed (records : list (Level * LogMsg)) : list pystr :=
  omap (fun r => match r with
                 | (DEBUG, DisplayingSubtitle lang) => Some lang
                 | _ => None
                 end) records.

(** The world [w'] is the world [w] with records of the rendering loop
    appended to its log, the display records being those of [langs];
    nothing else of the world has changed. *)
Definition render_logged (langs : list pystr) (w w' : World) : Prop :=
  exists records,
    w' = add_logs records w /\ forallb is_render_record records = true /\
    displayed records = langs.

(** The selected languages the result has a subtitle for. *)
Definition shown (results : Results) (langs : list pystr) : list pystr :=
  List.filter (fun lang => bool_decide (is_Some (results !! lang))) langs.

(** The variables of [main] after the loop has run over [langs]. *)
Definition frame_after (results : Results) (langs : list pystr) (fr : Frame) : Frame :=
  {| cell_lang := match last langs with
                  | Some lang => Some lang
                  | None => cell_lang fr
                  end;
     cell_sub := match last (omap (fun lang => results !! lang) langs) with
                 | Some sub => Some sub
                 | None => cell_sub fr
                 end |}.

(** ** Further concrete requests, sessions and pages *)

Module Cases.

(** A request without a title. *)
Definition untitled : Form := Demo.form "" ["eng"] ["opensubtitles"].

(** English and a code that is not a language. *)
Definition eng_and_unknown : list pystr := [py "eng"; py "xxx"].

(** A search for these two codes. *)
Definition unknown_language_run : Result Results * World :=
  search_and_download_subtitles Demo.env1
    (py "Inception") 2010 (py "movie") eng_and_unknown Demo.only_opensubtitles
    None None None Demo.world.


(** The world in which a search for [Inception] has obtained its
    temporary directory. *)
Definition with_temp_dir : World :=
  (mkdtemp (add_log DEBUG (StartingSearch (py "Inception") 2010 (py "movie")) Demo.world)).2.

(** A scan that reads an episode out of the file name and makes an
    object of class [Episode]. *)
Definition scan_as_episode (path : pystr) : Result Video :=
  Ok {| v_name := path; v_guessed_episode := true; v_title := None; v_year := None;
        v_series := Some (py "Show"); v_season := Some 1; v_episode := Some 2 |}.

Definition env_episode_scan : Env :=
  {| scan_video := scan_as_episode;
     babelfish_known := babelfish_known Demo.env1;
     download_best_subtitles := download_best_subtitles Demo.env1;
     chat_completions_create := chat_completions_create Demo.env1;
     OPEN_SUBTITLES_USERNAME := None;
     OPEN_SUBTITLES_PASSWORD := None;
     OPENROUTER_API_KEY := None;
     OPENROUTER_MODEL := OPENROUTER_MODEL Demo.env1 |}.

(** An episode search whose title reads like an episode name. *)
Definition episode_title_run : Result Results * World :=
  search_and_download_subtitles env_episode_scan
    (py "Show S01E02") 2010 (py "episode") Demo.only_eng Demo.only_opensubtitles
    (Some 1) (Some 2) None Demo.world.

(** The request [Demo.inception], another request and [Demo.inception]
    again. *)
Definition again_after_another : list Form := [Demo.eng_then_fra; Demo.inception].

(** A session that has seen the request [Demo.inception]. *)
Definition seen : Session :=
  store (cache_key Demo.inception) {[ py "eng" := Demo.eng1 ]} new_session.

(** Another request in that session. *)
Definition later_run : Result (Session * list (option Results)) * World :=
  session_run Demo.env1 [Demo.eng_then_fra] seen Demo.world.

Definition later_session : Session :=
  match later_run.1 with
  | Ok (s, _) => s
  | Raise _ => seen
  end.

Definition later_answers : list (option Results) :=
  match later_run.1 with
  | Ok (_, outs) => outs
  | Raise _ => []
  end.

(** A search run by one press of the search button. *)
Definition first_request : Result (Session * option Results) * World :=
  search_clicked Demo.env1 Demo.inception new_session Demo.world.

(** A session with an enhanced English subtitle. *)
Definition enhanced_eng : Stage :=
  {| st_world := Demo.world;
     st_session := {| search_cache := ∅;
                      enhanced_subtitles := {[ py "eng" := Demo.caption_trimmed ]} |};
     st_frame := unbound;
     st_page := [] |}.

Definition eng_and_fra : list pystr := [py "eng"; py "fra"].

(** The hide button of the English box is pressed. *)
Definition hide_eng (key : pystr) : bool := bool_decide (key = hide_key (py "eng")).

(** The rendering of an English subtitle in that session. *)
Definition rendered : Result unit * Stage :=
  render_results (py "Inception") eng_and_fra {[ py "eng" := Demo.eng1 ]} hide_eng
    enhanced_eng.


(** The environment whose provider answers with an English and a
    French match and whose completion capability answers with text. *)
Definition env_two : Env := Demo.env (Demo.always [Demo.eng1; Demo.fra7]) Demo.answers_text
                              Demo.api_key.

(** The page after a search for English and French. *)
Definition two_boxes : Result unit * Stage :=
  search_page env_two Demo.eng_then_fra (fun _ => false) new_session Demo.world.

(** A search and a press on the English enhance button. *)
Definition search_then_enhance : list Interaction :=
  [press_search Demo.inception (fun _ => false); press_enhance (enhance_key (py "eng"))].

End Cases.

(** * Properties *)

(** ** Strings and the cache key *)

Example str_of_int_2010 : str_of_int 2010 = py "2010".
Proof. reflexivity. Qed.

Example str_of_int_zero : str_of_int 0 = py "0".
Proof. reflexivity. Qed.

Example str_of_int_negative : str_of_int (-7) = py "-7".
Proof. reflexivity. Qed.

Example join_two : join (py "_") [py "eng"; py "fra"] = py "eng_fra".
Proof. reflexivity. Qed.

Example split_absolute : split Fs.sep (py "/tmp/a") = [py ""; py "tmp"; py "a"].
Proof. reflexivity. Qed.

Example strip_both_ends : strip (py "  1 a  ") = py "1 a".
Proof. reflexivity. Qed.

Example join_absolute_discards :
  Fs.os_path_join (py "/tmp/tmpaaaaaaaa") (py "/home/x.mkv") = py "/home/x.mkv".
Proof. reflexivity. Qed.

Example join_relative_appends :
  Fs.os_path_join (py "/tmp/tmpaaaaaaaa") (py "x.mkv") = py "/tmp/tmpaaaaaaaa/x.mkv".
Proof. reflexivity. Qed.

Example cache_key_movie :
  cache_key Demo.eng_then_fra = py "Inception_movie_2010_eng_fra_opensubtitles_podnapisi".
Proof. reflexivity. Qed.

Example cache_key_other_order :
  cache_key Demo.fra_then_eng = py "Inception_movie_2010_fra_eng_podnapisi_opensubtitles".
Proof. reflexivity. Qed.

Example cache_key_episode :
  cache_key {| f_media_type := py "episode"; f_title := py "Show"; f_year := 2021;
               f_season := 2; f_episode := 13; selected_langs := [py "eng"];
               selected_providers := [py "addic7ed"] |}
  = py "Show_episode_2021_eng_addic7ed_2_13".
Proof. reflexivity. Qed.

(** Season and episode numbers that come from the widgets are
    positive. *)
Lemma widget_numbers_positive (current_year : Z) (f : Form) :
  from_widgets current_year f -> 0 < f_season f /\ 0 < f_episode f.
Proof. intros (_ & _ & Hs & He & _). lia. Qed.

(** C1, counterexample: two requests that agree on title, year, kind,
    season and episode and select the same set of languages and the
    same set of providers, in a different order, get different cache
    keys. *)
Lemma cache_key_depends_on_selection_order :
  f_title Demo.eng_then_fra = f_title Demo.fra_then_eng /\
  f_year Demo.eng_then_fra = f_year Demo.fra_then_eng /\
  f_media_type Demo.eng_then_fra = f_media_type Demo.fra_then_eng /\
  f_season Demo.eng_then_fra = f_season Demo.fra_then_eng /\
  f_episode Demo.eng_then_fra = f_episode Demo.fra_then_eng /\
  list_to_set (C := gset pystr) (selected_langs Demo.eng_then_fra)
    = list_to_set (selected_langs Demo.fra_then_eng) /\
  list_to_set (C := gset pystr) (selected_providers Demo.eng_then_fra)
    = list_to_set (selected_providers Demo.fra_then_eng) /\
  cache_key Demo.eng_then_fra <> cache_key Demo.fra_then_eng.
Proof.
  repeat split; try (vm_compute; reflexivity).
  vm_compute. discriminate.
Qed.

(** C1, amended: requests that agree on title, media type and year,
    list the same languages and the same providers in the same
    selection order and, for an episode, agree on season and episode,
    get the same cache key. *)
Theorem cache_key_same_selection (f1 f2 : Form) :
  f_title f1 = f_title f2 ->
  f_media_type f1 = f_media_type f2 ->
  f_year f1 = f_year f2 ->
  selected_langs f1 = selected_langs f2 ->
  selected_providers f1 = selected_providers f2 ->
  (is_episode f1 = true -> f_season f1 = f_season f2 /\ f_episode f1 = f_episode f2) ->
  cache_key f1 = cache_key f2.
Proof.
  intros Ht Hm Hy Hl Hp Hse. unfold cache_key, is_episode in *.
  rewrite <- Ht, <- Hm, <- Hy, <- Hl, <- Hp.
  destruct (bool_decide (f_media_type f1 = py "episode")); [|reflexivity].
  destruct (Hse eq_refl) as [-> ->]. reflexivity.
Qed.

(** A movie request keeps its key whatever the unread season and
    episode values are. *)
Lemma cache_key_same_selection_witness :
  cache_key Demo.eng_then_fra = cache_key Demo.eng_then_fra_other_numbers.
Proof.
  apply cache_key_same_selection; try reflexivity.
  vm_compute. discriminate.
Defined.

(** ** The temporary directory *)

Lemma mkdtemp_loop_frame (draws : list N) (w : World) r w' :
  mkdtemp_loop draws w = (r, w') -> same_outside_fs w w'.
Proof.
  induction draws as [|seed rest IH]; simpl; intros H.
  - inversion H; subst. repeat split.
  - destruct (Fs.os_mkdir _ _) as [t|e].
    + inversion H; subst. repeat split.
    + destruct (is_file_exists e); [auto|].
      inversion H; subst. repeat split.
Qed.

Lemma mkdtemp_loop_created (draws : list N) (w : World) temp_dir w' :
  mkdtemp_loop draws w = (Ok temp_dir, w') ->
  Fs.os_mkdir (fs w) temp_dir = Ok (fs w').
Proof.
  induction draws as [|seed rest IH]; simpl; intros H; [discriminate|].
  destruct (Fs.os_mkdir (fs w) (Fs.os_path_join _ _)) as [t|e] eqn:Hmk.
  - inversion H; subst. exact Hmk.
  - destruct (is_file_exists e); [auto|discriminate].
Qed.

Lemma mkdtemp_loop_failed (draws : list N) (w : World) e w' :
  mkdtemp_loop draws w = (Raise e, w') -> fs w' = fs w.
Proof.
  induction draws as [|seed rest IH]; simpl; intros H.
  - inversion H; subst. reflexivity.
  - destruct (Fs.os_mkdir _ _) as [t|e0]; [discriminate|].
    destruct (is_file_exists e0); [auto|]. inversion H; subst. reflexivity.
Qed.

(** ** The organising loop *)

Lemma organize_spec (subs : list Subtitle) (results : Results) (w : World) :
  organize subs results w
  = (Ok (index_by_language subs results), add_logs (found_records subs) w).
Proof.
  revert results w. induction subs as [|sub rest IH]; intros results w; simpl.
  - unfold ret, add_logs. rewrite app_nil_r. destruct w; reflexivity.
  - unfold bind, logging. rewrite IH. unfold add_logs, add_log; simpl.
    rewrite <- app_assoc. reflexivity.
Qed.

(** ** Path resolution and the directory tree *)

Module FsFacts.
Import Fs.

Lemma walk_kept (t t' : tree) (comps : list pystr) :
  dirs_kept t t' ->
  forall cur d, walk t cur comps = Ok d -> walk t' cur comps = Ok d.
Proof.
  intros Hk. induction comps as [|c rest IH]; intros cur d; simpl; [auto|].
  destruct (stays c); [apply IH|].
  destruct (dotdot c); [apply IH|].
  destruct (is_dir t (cur ++ [c])) eqn:Hd; [|discriminate].
  rewrite (Hk _ Hd). apply IH.
Qed.

Lemma walk_app (t : tree) (l1 l2 : list pystr) :
  forall cur d, walk t cur l1 = Ok d -> walk t cur (l1 ++ l2) = walk t d l2.
Proof.
  induction l1 as [|c rest IH]; intros cur d; simpl.
  - intros H. inversion H. reflexivity.
  - destruct (stays c); [apply IH|].
    destruct (dotdot c); [apply IH|].
    destruct (is_dir t (cur ++ [c])); [apply IH|discriminate].
Qed.

Lemma split_nonempty (s : pystr) : split sep s <> [].
Proof.
  destruct s as [|c rest]; simpl; [discriminate|].
  destruct (decide (c = sep)); [discriminate|].
  destruct (split sep rest); discriminate.
Qed.

Lemma split_plain_name (name : pystr) :
  Fs.sep ∉ name -> split Fs.sep name = [name].
Proof.
  induction name as [|c name IH]; intros Hname; cbn [split]; [reflexivity|].
  rewrite decide_False by (intros ->; apply Hname, list_elem_of_here).
  rewrite IH; [reflexivity|]. intros Hin. apply Hname, list_elem_of_further, Hin.
Qed.

Lemma split_snoc_name (s name : pystr) :
  Fs.sep ∉ name ->
  split Fs.sep (s ++ [Fs.sep] ++ name) = split Fs.sep s ++ [name].
Proof.
  intros Hname. induction s as [|c s IH].
  - change ([] ++ [Fs.sep] ++ name) with (Fs.sep :: name). cbn [split].
    rewrite decide_True by reflexivity. rewrite (split_plain_name _ Hname). reflexivity.
  - change ((c :: s) ++ [Fs.sep] ++ name) with (c :: (s ++ [Fs.sep] ++ name)).
    cbn [split]. rewrite IH. destruct (decide (c = Fs.sep)); [reflexivity|].
    destruct (split Fs.sep s) eqn:Hs; [|reflexivity].
    exfalso. apply (split_nonempty s). exact Hs.
Qed.

Lemma is_dir_insert_dir (t : tree) (p : path) : is_dir (<[p := Dir]> t) p = true.
Proof.
  unfold is_dir. destruct p; [reflexivity|]. rewrite lookup_insert_eq. reflexivity.
Qed.

Lemma dirs_kept_insert (t : tree) (p : path) (n : Node) :
  is_dir t p = false -> dirs_kept t (<[p := n]> t).
Proof.
  intros Hp q Hq. destruct (decide (p = q)) as [->|Hne]; [congruence|].
  unfold is_dir in *. destruct q; [reflexivity|].
  rewrite lookup_insert_ne; auto.
Qed.

Lemma exists_false_is_dir (t : tree) (p : path) : exists_ t p = false -> is_dir t p = false.
Proof.
  unfold exists_, is_dir. destruct p as [|c p]; [discriminate|].
  intros H. apply bool_decide_eq_false in H.
  destruct (t !! (c :: p)) as [n|] eqn:Hl; [|reflexivity].
  exfalso. apply H. eauto.
Qed.

(** A directory that [os.mkdir] has made is found again under the
    same path string. *)
Lemma mkdir_resolves (t t' : tree) (s : pystr) :
  os_mkdir t s = Ok t' ->
  exists d, resolve_dir t' s = Ok d /\ t' !! d = Some Dir /\ t !! d = None /\
            t' = <[d := Dir]> t /\ d <> [].
Proof.
  unfold os_mkdir, parent_and_name, resolve_dir. intros H.
  destruct (bool_decide (0%N ∈ s)); [discriminate|].
  destruct s as [|c0 s0]; [discriminate|].
  set (s := c0 :: s0) in *.
  destruct (walk t [] (removelast (split sep s))) as [d|e] eqn:Hw; [|discriminate].
  destruct (stays (List.last (split sep s) [])) eqn:Hs; [discriminate|].
  destruct (dotdot (List.last (split sep s) [])) eqn:Hdd; [discriminate|].
  destruct (exists_ t (d ++ [List.last (split sep s) []])) eqn:Hex; [discriminate|].
  simpl in H. destruct (NAME_MAX <? _)%N; [discriminate|]. inversion H; subst t'.
  exists (d ++ [List.last (split sep s) []]).
  pose proof (exists_false_is_dir _ _ Hex) as Hnd.
  split; [|split; [apply lookup_insert_eq|split; [|split; [reflexivity|]]]].
  - rewrite (app_removelast_last [] (split_nonempty s)) at 1.
    rewrite (walk_app _ _ _ [] d).
    + cbn [walk]. rewrite Hs, Hdd, is_dir_insert_dir. reflexivity.
    + apply (walk_kept t); [apply dirs_kept_insert, Hnd | exact Hw].
  - unfold exists_ in Hex. destruct (d ++ [_]) as [|c1 p1]; [discriminate|].
    apply bool_decide_eq_false in Hex. rewrite <- not_eq_None_Some in Hex.
    destruct (t !! (c1 :: p1)); [exfalso; apply Hex; discriminate|reflexivity].
  - intros Hnil. apply app_eq_nil in Hnil. destruct Hnil as [_ Hnil]. discriminate.
Qed.

(** The path string of a directory that [os.mkdir] has made does not
    end with a separator. *)
Lemma mkdir_no_trailing_sep (t t' : tree) (s : pystr) :
  os_mkdir t s = Ok t' -> last s <> Some sep.
Proof.
  unfold os_mkdir, parent_and_name. intros H Hlast.
  apply last_Some in Hlast. destruct Hlast as [s' ->].
  destruct (bool_decide (0%N ∈ s' ++ [sep])); [discriminate|].
  destruct (s' ++ [sep]) as [|c0 s0] eqn:Hs; [discriminate|]. rewrite <- Hs in H.
  destruct (walk t [] (removelast (split sep (s' ++ [sep])))) as [d|e]; [|discriminate].
  replace (s' ++ [sep]) with (s' ++ [sep] ++ []) in H by reflexivity.
  rewrite split_snoc_name in H by apply not_elem_of_nil.
  rewrite last_last in H. discriminate.
Qed.

Lemma write_file_kept (t t' : tree) (s : pystr) (data : pybytes) :
  write_file t s data = Ok t' -> dirs_kept t t'.
Proof.
  unfold write_file. destruct (parent_and_name t s) as [[d name]|e]; [|discriminate].
  destruct (stays name); [discriminate|]. destruct (dotdot name); [discriminate|].
  destruct (is_dir t (d ++ [name])) eqn:Hd; [discriminate|]. simpl.
  destruct (NAME_MAX <? _)%N; [discriminate|]. intros H; inversion H.
  apply dirs_kept_insert, Hd.
Qed.

Lemma resolve_dir_kept (t t' : tree) (s : pystr) (d : path) :
  dirs_kept t t' -> resolve_dir t s = Ok d -> resolve_dir t' s = Ok d.
Proof.
  unfold resolve_dir. intros Hk. destruct (bool_decide (0%N ∈ s)); [auto|].
  apply walk_kept, Hk.
Qed.

Lemma remove_subtree_below (d q : path) (t : tree) :
  d `prefix_of` q -> remove_subtree d t !! q = None.
Proof.
  intros Hp. unfold remove_subtree. apply map_lookup_filter_None. right.
  intros n _ Hn. apply Hn. exact Hp.
Qed.

Lemma remove_subtree_outside (d q : path) (t : tree) :
  ~ d `prefix_of` q -> remove_subtree d t !! q = t !! q.
Proof.
  intros Hp. unfold remove_subtree.
  destruct (t !! q) as [n|] eqn:Hq.
  - apply map_lookup_filter_Some. split; [exact Hq|exact Hp].
  - apply map_lookup_filter_None. left. exact Hq.
Qed.

Lemma nothing_below_missing (t : tree) (d : path) :
  well_formed t -> d <> [] -> t !! d = None ->
  forall q, d `prefix_of` q -> t !! q = None.
Proof.
  intros Hwf Hd Hnone q [k ->]. induction k as [|c k IH] using rev_ind.
  - rewrite app_nil_r. exact Hnone.
  - destruct (t !! (d ++ k ++ [c])) as [n|] eqn:Hq; [|reflexivity].
    exfalso. rewrite app_assoc in Hq.
    assert (Hdir : is_dir t (d ++ k) = true) by (apply (Hwf _ c); eauto).
    unfold is_dir in Hdir. destruct (d ++ k) as [|x p] eqn:Hp.
    + apply app_eq_nil in Hp. destruct Hp. contradiction.
    + rewrite IH in Hdir. discriminate.
Qed.

(** Removing the subtree of a directory that was added to a
    well-formed tree, with or without a file inside, gives the tree
    back. *)
Lemma remove_added_subtree (t : tree) (d : path) (extra : tree) :
  well_formed t -> d <> [] -> t !! d = None ->
  (forall q, ~ d `prefix_of` q -> extra !! q = t !! q) ->
  remove_subtree d extra = t.
Proof.
  intros Hwf Hd Hnone Hout. apply map_eq. intros q.
  destruct (decide (d `prefix_of` q)) as [Hp|Hp].
  - rewrite (remove_subtree_below _ _ _ Hp).
    symmetry. apply (nothing_below_missing t d); assumption.
  - rewrite (remove_subtree_outside _ _ _ Hp). apply Hout, Hp.
Qed.

(** A file name without separator, joined to a directory path, is
    written inside that directory. *)
Lemma write_file_inside (t t' : tree) (s name : pystr) (d : path) (data : pybytes) :
  sep ∉ name -> last s <> Some sep -> s <> [] ->
  resolve_dir t s = Ok d ->
  write_file t (os_path_join s name) data = Ok t' ->
  t' = <[d ++ [name] := File data]> t.
Proof.
  intros Hname Hlast Hs Hres. unfold os_path_join.
  assert (Hstart : startswith name [sep] = false).
  { destruct name as [|c name]; [reflexivity|]. simpl.
    rewrite decide_False; [reflexivity|]. intros Heq. apply Hname. rewrite <- Heq. left. }
  rewrite Hstart. destruct s as [|c0 s0]; [contradiction|].
  rewrite decide_False by exact Hlast.
  unfold write_file, parent_and_name.
  destruct (bool_decide (0%N ∈ (c0 :: s0) ++ [sep] ++ name)) eqn:Hnul; [discriminate|].
  change ((c0 :: s0) ++ [sep] ++ name) with (c0 :: (s0 ++ [sep] ++ name)).
  cbv iota. change (c0 :: (s0 ++ [sep] ++ name)) with ((c0 :: s0) ++ [sep] ++ name).
  rewrite (split_snoc_name _ _ Hname), removelast_last, last_last.
  unfold resolve_dir in Hres.
  destruct (bool_decide (0%N ∈ c0 :: s0)); [discriminate|]. rewrite Hres.
  destruct (stays name || dotdot name || is_dir t (d ++ [name])); [discriminate|].
  destruct (NAME_MAX <? name_bytes name)%N; [discriminate|].
  intros H. inversion H. reflexivity.
Qed.

Lemma mkdir_nonempty_path (t t' : tree) (s : pystr) :
  os_mkdir t s = Ok t' -> s <> [].
Proof. intros H ->. vm_compute in H. discriminate. Qed.

End FsFacts.
Import FsFacts.

(** ** Case analysis of a run of the aggregator *)

Ltac run_search H :=
  unfold search_and_download_subtitles, search_body, bind, try_finally, try_except,
    logging, lift, raise, ret, mkdtemp, open_write, shutil_rmtree,
    call_download_best_subtitles in H;
  repeat (case_match; simplify_eq/=);
  try rewrite organize_spec in *; simplify_eq/=.

Ltac use_mkdtemp_frame :=
  match goal with
  | Hm : mkdtemp_loop _ _ = (_, _) |- _ =>
      let F := fresh "F" in
      pose proof (mkdtemp_loop_frame _ _ _ _ Hm) as F;
      destruct F as (Ftmp & Fprov & Fcompl & Flog & Fui & Fout); simpl in *
  end.

Lemma language_set_ok E languages langs :
  language_set E languages = Ok langs -> langs = list_to_set languages.
Proof.
  revert langs. induction languages as [|l rest IH]; simpl; intros langs H.
  - inversion H. reflexivity.
  - unfold Language in H. destruct (babelfish_known E l); [|discriminate].
    destruct (language_set E rest) as [s|e]; [|discriminate].
    inversion H. rewrite (IH s eq_refl). reflexivity.
Qed.

Lemma search_returns E title year media_type languages providers_list season episode
    provider_configs w results w' :
  search_and_download_subtitles E title year media_type languages providers_list
    season episode provider_configs w = (Ok results, w') ->
  exists video0 video entry,
    let call := {| pc_video := video;
                   pc_languages := list_to_set languages;
                   pc_providers := providers_list;
                   pc_configs := configs_or_empty provider_configs |} in
    set_metadata video0 title year media_type season episode = Ok video /\
    provider_calls w' = provider_calls w ++ [call] /\
    download_best_subtitles E (length (provider_calls w)) call = Ok entry /\
    results = index_by_language (get_or_empty entry) ∅.
Proof.
  intros H. run_search H; use_mkdtemp_frame;
    match goal with
    | Hl : language_set _ _ = Ok _ |- _ => apply language_set_ok in Hl; subst
    end;
    eexists _, _, _; simpl; rewrite Fprov;
    (split; [eassumption|]); (split; [reflexivity|]); (split; [|reflexivity]);
    match goal with
    | Hd : download_best_subtitles _ _ _ = _ |- _ => rewrite Fprov in Hd; exact Hd
    end.
Qed.

(** On every path the aggregator calls the provider capability at
    most once, with the arguments it was given. *)
Lemma search_calls_provider E title year media_type languages providers_list season episode
    provider_configs w r w' :
  search_and_download_subtitles E title year media_type languages providers_list
    season episode provider_configs w = (r, w') ->
  provider_calls w' = provider_calls w \/
  exists video0 video,
    set_metadata video0 title year media_type season episode = Ok video /\
    provider_calls w'
    = provider_calls w
      ++ [ {| pc_video := video;
              pc_languages := list_to_set languages;
              pc_providers := providers_list;
              pc_configs := configs_or_empty provider_configs |} ].
Proof.
  intros H. run_search H; use_mkdtemp_frame;
    try match goal with
    | Hl : language_set _ _ = Ok _ |- _ => apply language_set_ok in Hl; subst
    end;
    simpl; rewrite ?Fprov;
    first [left; reflexivity | right; eexists _, _; split; [eassumption|reflexivity]].
Qed.

Lemma filter_found_records subs :
  List.filter is_search_start (found_records subs) = [].
Proof. induction subs; simpl; auto. Qed.

Lemma search_invocations_step E title year media_type languages providers_list season episode
    provider_configs w r w' :
  search_and_download_subtitles E title year media_type languages providers_list
    season episode provider_configs w = (r, w') ->
  search_invocations w' = S (search_invocations w).
Proof.
  intros H. run_search H; use_mkdtemp_frame; unfold search_invocations; simpl;
    rewrite ?Flog; rewrite ?List.filter_app, ?filter_found_records; simpl;
    rewrite ?length_app; simpl; lia.
Qed.

Lemma rmtree_after (t1 t2 : Fs.tree) (s : pystr) (d : Fs.path) :
  Fs.resolve_dir t1 s = Ok d -> dirs_kept t1 t2 ->
  Fs.rmtree t2 s = Ok (Fs.remove_subtree d t2).
Proof.
  intros Hres Hk. unfold Fs.rmtree. rewrite (resolve_dir_kept _ _ _ _ Hk Hres). reflexivity.
Qed.

Lemma dirs_kept_refl (t : Fs.tree) : dirs_kept t t.
Proof. intros q Hq. exact Hq. Qed.

(** Whatever the outcome of a search that obtained its temporary
    directory: the tree it leaves is the tree after the attempt to
    write the dummy file, without the subtree of the temporary
    directory. *)
Lemma search_final_tree E title year media_type languages providers_list season
    episode provider_configs w r w' temp_dir w1 :
  search_and_download_subtitles E title year media_type languages providers_list
    season episode provider_configs w = (r, w') ->
  mkdtemp (add_log DEBUG (StartingSearch title year media_type) w) = (Ok temp_dir, w1) ->
  exists d,
    Fs.resolve_dir (fs w1) temp_dir = Ok d /\ d <> [] /\
    fs w !! d = None /\ fs w1 = <[d := Fs.Dir]> (fs w) /\
    fs w' = Fs.remove_subtree d
              (fs (open_write (Fs.os_path_join temp_dir (title ++ py ".mkv")) (py "dummy")
                     (add_log DEBUG (TempDirCreated temp_dir) w1)).2).
Proof.
  intros H Hmk. unfold mkdtemp in Hmk. simpl in Hmk.
  pose proof (mkdtemp_loop_created _ _ _ _ Hmk) as Hc. simpl in Hc.
  destruct (mkdir_resolves _ _ _ Hc) as (d & Hres & _ & Hnone & Heq & Hd).
  exists d. split; [exact Hres|]. split; [exact Hd|].
  split; [exact Hnone|]. split; [exact Heq|].
  run_search H;
    revert Hmk;
    match goal with
    | H0 : mkdtemp_loop _ _ = _ |- _ => rewrite H0
    end;
    intros Hmk; simplify_eq;
    unfold open_write; simpl;
    match goal with
    | Hw : Fs.write_file _ _ _ = _ |- _ => rewrite Hw
    end;
    repeat match goal with
    | Hw : Fs.write_file _ _ _ = Ok _ |- _ => apply write_file_kept in Hw
    end;
    match goal with
    | Hrm : Fs.rmtree ?t _ = _, Hk : dirs_kept _ ?t |- _ =>
        rewrite (rmtree_after _ _ _ _ Hres Hk) in Hrm
    | Hrm : Fs.rmtree _ _ = _ |- _ =>
        rewrite (rmtree_after _ _ _ _ Hres (dirs_kept_refl _)) in Hrm
    end;
    simplify_eq; reflexivity.
Qed.

(** X17: in particular nothing is left at or below the temporary
    directory, whatever the outcome of the search. *)
Lemma search_removes_temp_dir E title year media_type languages providers_list season
    episode provider_configs w r w' temp_dir w1 :
  search_and_download_subtitles E title year media_type languages providers_list
    season episode provider_configs w = (r, w') ->
  mkdtemp (add_log DEBUG (StartingSearch title year media_type) w) = (Ok temp_dir, w1) ->
  exists d,
    Fs.resolve_dir (fs w1) temp_dir = Ok d /\
    fs w1 !! d = Some Fs.Dir /\
    forall q, d `prefix_of` q -> fs w' !! q = None.
Proof.
  intros H Hmk.
  destruct (search_final_tree _ _ _ _ _ _ _ _ _ _ _ _ _ _ H Hmk)
    as (d & Hres & _ & _ & Heq & Hfinal).
  exists d. split; [exact Hres|]. split; [rewrite Heq; apply lookup_insert_eq|].
  intros q Hq. rewrite Hfinal. apply remove_subtree_below, Hq.
Qed.

Lemma search_without_temp_dir E title year media_type languages providers_list season
    episode provider_configs w r w' e w1 :
  search_and_download_subtitles E title year media_type languages providers_list
    season episode provider_configs w = (r, w') ->
  mkdtemp (add_log DEBUG (StartingSearch title year media_type) w) = (Raise e, w1) ->
  r = Raise e /\ fs w' = fs w.
Proof.
  intros H Hmk. unfold mkdtemp in Hmk. simpl in Hmk.
  pose proof (mkdtemp_loop_failed _ _ _ _ Hmk) as Hf. simpl in Hf.
  run_search H;
    revert Hmk;
    match goal with
    | H0 : mkdtemp_loop _ _ = _ |- _ => rewrite H0
    end;
    intros Hmk; simplify_eq.
  split; [reflexivity|exact Hf].
Qed.

(** ** The result dictionary *)

Lemma index_by_language_lookup (subs : list Subtitle) (results : Results) (k : pystr) :
  index_by_language subs results !! k
  = match last_with_language k subs with
    | Some sub => Some sub
    | None => results !! k
    end.
Proof.
  revert results. unfold index_by_language, last_with_language.
  induction subs as [|sub rest IH]; intros results; simpl; [reflexivity|].
  rewrite IH. destruct (bool_decide (language_alpha3 sub = k)) eqn:Hk.
  - rewrite last_cons. destruct (last (List.filter _ rest)); [reflexivity|].
    apply bool_decide_eq_true in Hk. rewrite Hk. apply lookup_insert_eq.
  - destruct (last (List.filter _ rest)); [reflexivity|].
    apply bool_decide_eq_false in Hk. apply lookup_insert_ne. exact Hk.
Qed.

Lemma last_with_language_is_Some (k : pystr) (subs : list Subtitle) :
  is_Some (last_with_language k subs)
  <-> exists sub, sub ∈ subs /\ language_alpha3 sub = k.
Proof.
  unfold last_with_language. split.
  - intros [sub Hsub]. exists sub. apply last_Some_elem_of in Hsub.
    apply list_elem_of_In, List.filter_In in Hsub. destruct Hsub as [Hin Hk].
    split; [apply list_elem_of_In, Hin|]. apply bool_decide_eq_true in Hk. exact Hk.
  - intros (sub & Hin & Hk).
    assert (Hf : In sub (List.filter (fun s => bool_decide (language_alpha3 s = k)) subs)).
    { apply List.filter_In. split; [apply list_elem_of_In, Hin|].
      apply bool_decide_eq_true. exact Hk. }
    destruct (List.filter _ subs) as [|x l] eqn:Hl; [destruct Hf|].
    rewrite last_cons. destruct (last l); eauto.
Qed.

Example duplicates_keep_last :
  Demo.duplicates_run.1
  = Ok {[ py "eng" := Demo.eng2; py "fra" := Demo.fra7 ]}.
Proof. vm_compute. reflexivity. Qed.

(** C7: when the aggregator returns, its result maps every language
    code to the last match with that code in the collection the
    provider capability returned (and to nothing when there is none);
    of two or more matches with the same code the last one wins. *)
Theorem last_match_of_a_language_wins E title year media_type languages providers_list
    season episode provider_configs w results w' :
  search_and_download_subtitles E title year media_type languages providers_list
    season episode provider_configs w = (Ok results, w') ->
  exists call entry,
    answered_with E w w' call entry /\
    forall k, results !! k = last_with_language k (get_or_empty entry).
Proof.
  intros H. destruct (search_returns _ _ _ _ _ _ _ _ _ _ _ _ H) as (video0 & video & entry & Hc).
  simpl in Hc. destruct Hc as (_ & Hcalls & Hanswer & ->).
  eexists _, entry. split; [split; [exact Hcalls|exact Hanswer]|].
  intros k. rewrite index_by_language_lookup.
  destruct (last_with_language k (get_or_empty entry)); [reflexivity|apply lookup_empty].
Qed.

(** Three matches, English twice: the second English match is kept. *)
Lemma last_match_of_a_language_wins_witness :
  exists call entry,
    answered_with (Demo.env (Demo.always [Demo.eng1; Demo.fra7; Demo.eng2])
                     Demo.no_completion None)
      Demo.world Demo.duplicates_run.2 call entry /\
    forall k,
      ({[ py "eng" := Demo.eng2; py "fra" := Demo.fra7 ]} : Results) !! k
      = last_with_language k (get_or_empty entry).
Proof.
  apply (last_match_of_a_language_wins _ (py "Inception") 2010 (py "movie")
           [py "eng"; py "fra"] Demo.only_opensubtitles None None None).
  vm_compute. reflexivity.
Defined.

(** ** Languages of the result *)

(** C2, counterexample: English alone is requested, the provider
    capability hands back a French match as well, and the aggregator
    returns a result with the key [fra]. *)
Lemma unrequested_language_is_returned :
  Demo.extras_run.1 = Ok {[ py "eng" := Demo.eng1; py "fra" := Demo.fra7 ]} /\
  py "fra" ∉ Demo.only_eng.
Proof.
  split; [vm_compute; reflexivity|].
  intros Hin. apply list_elem_of_In in Hin. vm_compute in Hin.
  destruct Hin as [Heq|[]]. discriminate Heq.
Qed.

(** C2, amended: the keys of the returned result are exactly the
    language codes of the matches the provider capability returned to
    the one call made with the requested language set; they all belong
    to the requested languages whenever every returned match does. *)
Theorem result_keys_are_match_languages E title year media_type languages providers_list
    season episode provider_configs w results w' :
  search_and_download_subtitles E title year media_type languages providers_list
    season episode provider_configs w = (Ok results, w') ->
  exists call entry,
    answered_with E w w' call entry /\
    pc_languages call = list_to_set languages /\
    (forall k, is_Some (results !! k)
               <-> exists sub, sub ∈ get_or_empty entry /\ language_alpha3 sub = k) /\
    ((forall sub, sub ∈ get_or_empty entry -> language_alpha3 sub ∈ languages) ->
     forall k, is_Some (results !! k) -> k ∈ languages).
Proof.
  intros H. destruct (search_returns _ _ _ _ _ _ _ _ _ _ _ _ H) as (video0 & video & entry & Hc).
  simpl in Hc. destruct Hc as (_ & Hcalls & Hanswer & ->).
  assert (Hkeys : forall k, is_Some (index_by_language (get_or_empty entry) ∅ !! k)
                  <-> exists sub, sub ∈ get_or_empty entry /\ language_alpha3 sub = k).
  { intros k. rewrite index_by_language_lookup, <- last_with_language_is_Some.
    destruct (last_with_language k (get_or_empty entry)); [reflexivity|].
    rewrite lookup_empty. reflexivity. }
  eexists _, entry. split; [split; [exact Hcalls|exact Hanswer]|].
  split; [reflexivity|]. split; [exact Hkeys|].
  intros Hall k Hk. apply Hkeys in Hk. destruct Hk as (sub & Hin & <-). auto.
Qed.

(** English is requested and an English match comes back. *)
Lemma result_keys_are_match_languages_witness :
  exists call entry,
    answered_with Demo.env1 Demo.world Demo.plain_run.2 call entry /\
    pc_languages call = list_to_set Demo.only_eng /\
    (forall k, is_Some (({[ py "eng" := Demo.eng1 ]} : Results) !! k)
               <-> exists sub, sub ∈ get_or_empty entry /\ language_alpha3 sub = k) /\
    ((forall sub, sub ∈ get_or_empty entry -> language_alpha3 sub ∈ Demo.only_eng) ->
     forall k, is_Some (({[ py "eng" := Demo.eng1 ]} : Results) !! k) -> k ∈ Demo.only_eng).
Proof.
  apply (result_keys_are_match_languages _ (py "Inception") 2010 (py "movie")
           Demo.only_eng Demo.only_opensubtitles None None None).
  vm_compute. reflexivity.
Defined.

(** ** Season and episode *)

Lemma language_set_known E (languages : list pystr) :
  (forall l, l ∈ languages -> babelfish_known E l = true) ->
  language_set E languages = Ok (list_to_set languages).
Proof.
  induction languages as [|l rest IH]; intros Hall; simpl; [reflexivity|].
  unfold Language. rewrite (Hall l) by apply list_elem_of_here.
  rewrite IH; [reflexivity|]. intros l' Hl'. apply Hall, list_elem_of_further, Hl'.
Qed.

(** C3, counterexample: an episode search with season 0 is not
    rejected; it reaches the provider capability, which is called with
    season 0, and the search returns the match. *)
Lemma season_zero_reaches_the_provider :
  Demo.season_zero_run.1 = Ok {[ py "eng" := Demo.eng1 ]} /\
  map (fun call => (v_season (pc_video call), v_episode (pc_video call)))
      (provider_calls Demo.season_zero_run.2) = [(Some 0, Some 1)].
Proof. split; vm_compute; reflexivity. Qed.

(** What the assignments leave on the video when they succeed. *)
Lemma set_metadata_ok (video video' : Video) title year media_type season episode :
  set_metadata video title year media_type season episode = Ok video' ->
  v_title video' = Some title /\ v_year video' = Some year /\
  (media_type = py "episode" ->
   v_guessed_episode video = false /\ v_series video' = Some title /\
   v_season video' = season /\ v_episode video' = episode).
Proof.
  unfold set_metadata, set_episode. case_bool_decide as Hm; simpl.
  - destruct (v_guessed_episode video) eqn:Hg; [discriminate|].
    intros H. inversion H; subst. simpl. split; [reflexivity|]. split; [reflexivity|].
    intros _. repeat split; reflexivity.
  - intros H. inversion H; subst. simpl. split; [reflexivity|]. split; [reflexivity|].
    intros Hm'. contradiction.
Qed.

(** On a video of class [Episode] the assignments of an episode
    request fail, whatever the numbers are. *)
Lemma set_metadata_on_episode_object (video : Video) title year season episode :
  v_guessed_episode video = true ->
  set_metadata video title year (py "episode") season episode = Raise episode_has_no_setter.
Proof.
  intros Hg. unfold set_metadata, set_episode.
  rewrite bool_decide_eq_true_2 by reflexivity. simpl. rewrite Hg. reflexivity.
Qed.

(** C3, amended: the search operation does not validate season and
    episode; nothing in it compares them with anything. For an
    episode request, once the dummy file is written, the scan has
    succeeded and the language codes are known, there are two cases.
    When the scan made a [Movie] object of the dummy file, season and
    episode are copied to the video as they are given (missing, zero or
    negative values included), the provider capability is called
    exactly once with that video, and the outcome is the outcome of
    that call. When the scan made an [Episode] object (the title reads
    like an episode name), the assignment [video.episode = episode]
    raises [AttributeError] whatever the numbers are, and the search
    fails without a call of the provider capability. *)
Theorem episode_numbers_reach_the_provider_unchecked E title year languages providers_list
    (season episode : option Z) provider_configs w temp_dir w1 w2 video :
  let dummy_path := Fs.os_path_join temp_dir (title ++ py ".mkv") in
  mkdtemp (add_log DEBUG (StartingSearch title year (py "episode")) w) = (Ok temp_dir, w1) ->
  open_write dummy_path (py "dummy") (add_log DEBUG (TempDirCreated temp_dir) w1)
    = (Ok tt, w2) ->
  scan_video E dummy_path = Ok video ->
  (forall l, l ∈ languages -> babelfish_known E l = true) ->
  exists r w',
    search_and_download_subtitles E title year (py "episode") languages providers_list
      season episode provider_configs w = (r, w') /\
    if v_guessed_episode video
    then (exists e, r = Raise e /\ exc_class e = AttributeError) /\
         provider_calls w' = provider_calls w
    else exists call,
        provider_calls w' = provider_calls w ++ [call] /\
        v_series (pc_video call) = Some title /\
        v_season (pc_video call) = season /\
        v_episode (pc_video call) = episode /\
        r = match download_best_subtitles E (length (provider_calls w)) call with
            | Ok entry => Ok (index_by_language (get_or_empty entry) ∅)
            | Raise e => Raise e
            end.
Proof.
  intros dummy_path Hmk Hopen Hscan Hknown.
  pose proof Hmk as Hframe. unfold mkdtemp in Hframe.
  apply mkdtemp_loop_frame in Hframe. destruct Hframe as (_ & Hprov & _).
  simpl in Hprov.
  pose proof Hmk as Hc. unfold mkdtemp in Hc. apply mkdtemp_loop_created in Hc.
  destruct (mkdir_resolves _ _ _ Hc) as (d & Hres & _).
  unfold open_write in Hopen. simpl in Hopen.
  destruct (Fs.write_file (fs w1) dummy_path (py "dummy")) as [t|e0] eqn:Hwrite;
    [|discriminate].
  pose proof (rmtree_after _ _ _ _ Hres (write_file_kept _ _ _ _ Hwrite)) as Hrm.
  unfold search_and_download_subtitles, search_body, bind, try_finally, try_except,
    logging, lift, raise, ret, open_write, shutil_rmtree, call_download_best_subtitles.
  rewrite Hmk. simpl. fold dummy_path. rewrite Hwrite. simpl. rewrite Hscan.
  destruct (v_guessed_episode video) eqn:Hg.
  - rewrite (set_metadata_on_episode_object _ _ _ _ _ Hg). simpl. rewrite Hrm.
    eexists _, _. split; [reflexivity|]. simpl.
    split; [eexists; split; reflexivity|exact Hprov].
  - destruct (set_metadata video title year (py "episode") season episode)
      as [video'|e] eqn:Hmeta.
    2:{ unfold set_metadata, set_episode in Hmeta.
        rewrite bool_decide_eq_true_2 in Hmeta by reflexivity. simpl in Hmeta.
        rewrite Hg in Hmeta. discriminate. }
    destruct (set_metadata_ok _ _ _ _ _ _ _ Hmeta) as (_ & _ & Hep).
    destruct (Hep eq_refl) as (_ & Hseries & Hseason & Hepisode).
    rewrite (language_set_known _ _ Hknown). simpl. rewrite Hprov.
    destruct (download_best_subtitles E _ _) as [entry|e] eqn:Hd; simpl.
    + rewrite organize_spec. simpl. rewrite Hrm. eexists _, _.
      split; [reflexivity|]. eexists. simpl. rewrite Hprov.
      split; [reflexivity|]. simpl. rewrite Hd. auto.
    + rewrite Hrm. eexists _, _.
      split; [reflexivity|]. eexists. simpl. rewrite Hprov.
      split; [reflexivity|]. simpl. rewrite Hd. auto.
Qed.

(** Season 0 and episode 1 are handed to the provider as they are. *)
Lemma episode_numbers_reach_the_provider_unchecked_witness :
  exists r w',
    search_and_download_subtitles Demo.env1 (py "Show") 2010 (py "episode") Demo.only_eng
      Demo.only_opensubtitles (Some 0) (Some 1) None Demo.world = (r, w') /\
    exists call,
      provider_calls w' = provider_calls Demo.world ++ [call] /\
      v_series (pc_video call) = Some (py "Show") /\
      v_season (pc_video call) = Some 0 /\
      v_episode (pc_video call) = Some 1 /\
      r = match download_best_subtitles Demo.env1 (length (provider_calls Demo.world)) call with
          | Ok entry => Ok (index_by_language (get_or_empty entry) ∅)
          | Raise e => Raise e
          end.
Proof.
  apply (episode_numbers_reach_the_provider_unchecked Demo.env1 (py "Show") 2010
           Demo.only_eng Demo.only_opensubtitles (Some 0) (Some 1) None Demo.world
           (py "/tmp/tmpaaaaaaaa")
           (mkdtemp (add_log DEBUG (StartingSearch (py "Show") 2010 (py "episode"))
                       Demo.world)).2
           (open_write (py "/tmp/tmpaaaaaaaa/Show.mkv") (py "dummy")
              (add_log DEBUG (TempDirCreated (py "/tmp/tmpaaaaaaaa"))
                 (mkdtemp (add_log DEBUG (StartingSearch (py "Show") 2010 (py "episode"))
                             Demo.world)).2)).2
           {| v_name := py "/tmp/tmpaaaaaaaa/Show.mkv"; v_guessed_episode := false;
              v_title := None; v_year := None; v_series := None; v_season := None;
              v_episode := None |}).
  - vm_compute. reflexivity.
  - vm_compute. reflexivity.
  - vm_compute. reflexivity.
  - intros l Hl. apply list_elem_of_In in Hl. destruct Hl as [<-|[]]. reflexivity.
Defined.

(** An episode request whose dummy file is scanned as an episode: the
    search fails at the assignment and the provider is not called. *)
Example episode_class_scan_fails :
  (exc_class <$> match Cases.episode_title_run.1 with
                 | Ok _ => None
                 | Raise e => Some e
                 end) = Some AttributeError /\
  provider_calls Cases.episode_title_run.2 = [].
Proof. split; vm_compute; reflexivity. Qed.

(** ** Cleaning up the temporary storage *)

(** X16: for a title without path separator the search leaves a
    well-formed tree exactly as it found it, whatever its outcome. *)
Theorem plain_title_restores_tree E title year media_type languages providers_list season
    episode provider_configs w r w' :
  well_formed (fs w) ->
  Fs.sep ∉ title ->
  search_and_download_subtitles E title year media_type languages providers_list
    season episode provider_configs w = (r, w') ->
  fs w' = fs w.
Proof.
  intros Hwf Htitle H.
  destruct (mkdtemp (add_log DEBUG (StartingSearch title year media_type) w))
    as [[temp_dir|e] w1] eqn:Hmk.
  - destruct (search_final_tree _ _ _ _ _ _ _ _ _ _ _ _ _ _ H Hmk)
      as (d & Hres & Hd & Hnone & Heq & Hfinal).
    rewrite Hfinal. apply remove_added_subtree; try assumption.
    intros q Hq.
    assert (Hqd : d <> q) by (intros ->; apply Hq; reflexivity).
    unfold mkdtemp in Hmk. apply mkdtemp_loop_created in Hmk. simpl in Hmk.
    unfold open_write. simpl.
    destruct (Fs.write_file (fs w1) _ _) as [t'|e] eqn:Hw; simpl.
    + apply write_file_inside with (d := d) in Hw.
      * rewrite Hw, lookup_insert_ne, Heq, lookup_insert_ne; [reflexivity|exact Hqd|].
        intros <-. apply Hq. apply prefix_app_r. reflexivity.
      * intros Hin. apply elem_of_app in Hin. destruct Hin as [Hin|Hin]; [auto|].
        apply list_elem_of_In in Hin. vm_compute in Hin.
        repeat (destruct Hin as [Hin|Hin]; [discriminate Hin|]). exact Hin.
      * apply (mkdir_no_trailing_sep _ _ _ Hmk).
      * apply (mkdir_nonempty_path _ _ _ Hmk).
      * exact Hres.
    + rewrite Heq, lookup_insert_ne; [reflexivity|exact Hqd].
  - apply (search_without_temp_dir _ _ _ _ _ _ _ _ _ _ _ _ _ _ H Hmk).
Qed.

Example temp_dir_name : Fs.candidate_name 0 = py "tmpaaaaaaaa".
Proof. reflexivity. Qed.

Example plain_title_leaves_no_trace : fs Demo.plain_run.2 = fs Demo.world.
Proof. vm_compute. reflexivity. Qed.

Example dotdot_title_leaves_the_dummy_file :
  fs Demo.dotdot_title_run.2 !! [py "tmp"; py "x.mkv"] = Some (Fs.File (py "dummy")).
Proof. vm_compute. reflexivity. Qed.

(** C8, the code at a failing input: with the title [/home/x] the
    path join discards the temporary directory, the dummy file is
    written to [/home/x.mkv], the search returns its result, the
    temporary directory is removed, and the dummy file is still there
    when the operation has returned. *)
Theorem absolute_title_leaves_the_dummy_file :
  Demo.absolute_title_run.1 = Ok {[ py "eng" := Demo.eng1 ]} /\
  fs Demo.world !! [py "home"; py "x.mkv"] = None /\
  fs Demo.absolute_title_run.2 !! [py "home"; py "x.mkv"] = Some (Fs.File (py "dummy")) /\
  fs Demo.absolute_title_run.2 !! [py "tmp"; py "tmpaaaaaaaa"] = None.
Proof. repeat split; vm_compute; reflexivity. Qed.

(** ** The enhancement pipeline *)

Lemma enhance_with_key_unfold E sub_content w c key :
  OPENROUTER_API_KEY E = Some (c :: key) ->
  enhance_subtitles E sub_content w
  = let w1 := add_log DEBUG (PromptPrepared (slice_to 100 (make_prompt sub_content))) w in
    let rq := make_request E (c :: key) sub_content in
    let w2 := add_completion_call rq w1 in
    match chat_completions_create E (length (completion_calls w)) rq with
    | Ok response =>
        match call_strip response with
        | Ok text =>
            (Ok (Some text),
             add_stdout text (add_log DEBUG ValidatedSuccessfully
                                (add_log DEBUG ResponseReceived w2)))
        | Raise e =>
            (Ok None,
             add_log ERROR (EnhanceError (exc_str e))
               (add_ui (st_error (py "AI Enhancement Error: " ++ exc_str e)) w2))
        end
    | Raise e =>
        (Ok None,
         add_log ERROR (EnhanceError (exc_str e))
           (add_ui (st_error (py "AI Enhancement Error: " ++ exc_str e)) w2))
    end.
Proof.
  intros Hkey. unfold enhance_subtitles. rewrite Hkey.
  unfold bind, try_except, logging, lift, ret, print, streamlit, call_create. simpl.
  destruct (chat_completions_create E _ _) as [response|e]; [|reflexivity].
  destruct (call_strip response); reflexivity.
Qed.

Lemma truthy_true (k : option pystr) :
  truthy k = true -> exists c key, k = Some (c :: key).
Proof. destruct k as [[|c key]|]; simpl; intros H; try discriminate. eauto. Qed.

(** A plain [str] answer is returned trimmed. *)
Lemma enhance_returns_trimmed_str E sub_content w text :
  truthy (OPENROUTER_API_KEY E) = true ->
  (forall rq, chat_completions_create E (length (completion_calls w)) rq
              = Ok (PlainText text)) ->
  (enhance_subtitles E sub_content w).1 = Ok (Some (strip text)).
Proof.
  intros Hk Hc. destruct (truthy_true _ Hk) as (c & key & Hkey).
  rewrite (enhance_with_key_unfold _ _ _ _ _ Hkey). simpl. rewrite Hc. reflexivity.
Qed.

(** A [ChatCompletion] answer makes the pipeline fail: the method
    call on the response object raises and the handler returns
    [None]. *)
Lemma enhance_fails_on_chat_completion E sub_content w choices :
  truthy (OPENROUTER_API_KEY E) = true ->
  (forall rq, chat_completions_create E (length (completion_calls w)) rq
              = Ok (ChatCompletion choices)) ->
  (enhance_subtitles E sub_content w).1 = Ok None.
Proof.
  intros Hk Hc. destruct (truthy_true _ Hk) as (c & key & Hkey).
  rewrite (enhance_with_key_unfold _ _ _ _ _ Hkey). simpl. rewrite Hc. reflexivity.
Qed.

Example text_answer_is_trimmed : Demo.text_run.1 = Ok (Some Demo.caption_trimmed).
Proof. vm_compute. reflexivity. Qed.

Example strip_caption : strip Demo.caption = Demo.caption_trimmed.
Proof. vm_compute. reflexivity. Qed.

(** C4, the code at a failing input: the completion capability
    answers with a completion object whose text is a caption block
    with blank space around it. The statement left as a comment would
    give the trimmed caption; the program calls [strip] on the
    completion object itself, the attribute error is caught, and
    [enhance_subtitles] returns [None] after one call of the
    capability. *)
Theorem completion_text_is_not_returned :
  commented_extraction (ChatCompletion [ {| message_content := Demo.caption |} ])
    = Some Demo.caption_trimmed /\
  Demo.completion_run.1 = Ok None /\
  ui Demo.completion_run.2
    = [st_error (py "AI Enhancement Error: 'ChatCompletion' object has no attribute 'strip'")] /\
  length (completion_calls Demo.completion_run.2) = 1%nat.
Proof. repeat split; vm_compute; reflexivity. Qed.

(** C6: without a configured API key ([None] or the empty string)
    [enhance_subtitles] fails at once: it returns [None], reports the
    missing key through [st.error] and the log, and the completion
    capability is not called. *)
Theorem enhance_without_credential E sub_content w :
  truthy (OPENROUTER_API_KEY E) = false ->
  enhance_subtitles E sub_content w
    = (Ok None, add_log ERROR ApiKeyNotFound (add_ui (st_error missing_key_message) w)) /\
  completion_calls (enhance_subtitles E sub_content w).2 = completion_calls w /\
  ui (enhance_subtitles E sub_content w).2 = ui w ++ [st_error missing_key_message].
Proof.
  intros Hk. unfold enhance_subtitles.
  destruct (OPENROUTER_API_KEY E) as [[|c key]|]; try discriminate Hk;
    repeat split; reflexivity.
Qed.

Lemma enhance_without_credential_witness :
  enhance_subtitles Demo.env1 (py "1") Demo.world
    = (Ok None,
       add_log ERROR ApiKeyNotFound (add_ui (st_error missing_key_message) Demo.world)) /\
  completion_calls (enhance_subtitles Demo.env1 (py "1") Demo.world).2
    = completion_calls Demo.world /\
  ui (enhance_subtitles Demo.env1 (py "1") Demo.world).2
    = ui Demo.world ++ [st_error missing_key_message].
Proof. apply (enhance_without_credential Demo.env1). reflexivity. Defined.

(** C9: when the completion capability raises, [enhance_subtitles]
    hands the failure to its caller: it returns [None] and reports
    [AI Enhancement Error:] followed by the message of the exception
    through [st.error] and the error log. The capability has been
    called exactly once; there is no second attempt. *)
Theorem enhancement_failure_is_reported E sub_content w api_key e :
  OPENROUTER_API_KEY E = Some api_key ->
  api_key <> [] ->
  chat_completions_create E (length (completion_calls w))
    (make_request E api_key sub_content) = Raise e ->
  exists w',
    enhance_subtitles E sub_content w = (Ok None, w') /\
    ui w' = ui w ++ [st_error (py "AI Enhancement Error: " ++ exc_str e)] /\
    last (log w') = Some (ERROR, EnhanceError (exc_str e)) /\
    completion_calls w' = completion_calls w ++ [make_request E api_key sub_content].
Proof.
  intros Hkey Hne Hc. destruct api_key as [|c key]; [congruence|].
  rewrite (enhance_with_key_unfold _ _ _ _ _ Hkey). simpl. rewrite Hc.
  eexists. split; [reflexivity|]. simpl.
  split; [reflexivity|]. split; [apply last_snoc|reflexivity].
Qed.

Lemma enhancement_failure_is_reported_witness :
  exists w',
    enhance_subtitles Demo.env_rate_limited (py "1") Demo.world = (Ok None, w') /\
    ui w' = ui Demo.world
            ++ [st_error (py "AI Enhancement Error: " ++ exc_str Demo.rate_limited)] /\
    last (log w') = Some (ERROR, EnhanceError (exc_str Demo.rate_limited)) /\
    completion_calls w'
      = completion_calls Demo.world
        ++ [make_request Demo.env_rate_limited (py "sk-or-test") (py "1")].
Proof.
  apply (enhancement_failure_is_reported Demo.env_rate_limited).
  - reflexivity.
  - vm_compute. discriminate.
  - reflexivity.
Defined.

(** ** The result cache *)

Lemma search_invocations_add_log (l : Level) (m : LogMsg) (w : World) :
  is_search_start (l, m) = false ->
  search_invocations (add_log l m w) = search_invocations w.
Proof.
  intros Hm. unfold search_invocations. simpl.
  rewrite List.filter_app. simpl. rewrite Hm. rewrite app_nil_r. reflexivity.
Qed.

Lemma search_clicked_hit E f s w results :
  missing_required f = false ->
  search_cache s !! cache_key f = Some results ->
  exists w',
    search_clicked E f s w = (Ok (s, Some results), w') /\
    provider_calls w' = provider_calls w /\
    search_invocations w' = search_invocations w /\
    fs w' = fs w.
Proof.
  intros Hreq Hhit. unfold search_clicked, cached_search. rewrite Hreq.
  unfold bind, logging, ret, streamlit. simpl. rewrite Hhit. simpl.
  destruct (bool_decide (results = ∅)); eexists; (split; [reflexivity|]); simpl;
    repeat split; unfold search_invocations; simpl;
    rewrite !List.filter_app; simpl; rewrite !app_nil_r; reflexivity.
Qed.

Lemma search_clicked_stores E f s w results w1 :
  missing_required f = false ->
  search_cache s !! cache_key f = None ->
  search_for E f (add_log DEBUG (CacheKeyGenerated (cache_key f)) w) = (Ok results, w1) ->
  exists w',
    search_clicked E f s w = (Ok (store (cache_key f) results s, Some results), w') /\
    provider_calls w' = provider_calls w1 /\
    search_invocations w' = search_invocations w1.
Proof.
  intros Hreq Hmiss Hsearch. unfold search_clicked, cached_search. rewrite Hreq.
  unfold bind, logging, ret, streamlit, try_except. simpl. rewrite Hmiss, Hsearch. simpl.
  destruct (bool_decide (results = ∅)); eexists; (split; [reflexivity|]); simpl;
    repeat split; unfold search_invocations; simpl;
    rewrite !List.filter_app; simpl; rewrite !app_nil_r; reflexivity.
Qed.

Lemma search_clicked_fails E f s w e w1 :
  missing_required f = false ->
  search_cache s !! cache_key f = None ->
  search_for E f (add_log DEBUG (CacheKeyGenerated (cache_key f)) w) = (Raise e, w1) ->
  exists w',
    search_clicked E f s w = (Ok (s, Some ∅), w') /\
    ui w' = ui w1 ++ [st_error (py "Error: " ++ exc_str e);
                      st_warning (py "No subtitles found")] /\
    provider_calls w' = provider_calls w1 /\
    search_invocations w' = search_invocations w1.
Proof.
  intros Hreq Hmiss Hsearch. unfold search_clicked, cached_search. rewrite Hreq.
  unfold bind, logging, ret, streamlit, try_except. simpl. rewrite Hmiss, Hsearch. simpl.
  rewrite bool_decide_eq_true_2 by reflexivity.
  eexists. split; [reflexivity|]. simpl. rewrite <- app_assoc.
  repeat split; unfold search_invocations; simpl;
    rewrite !List.filter_app; simpl; rewrite !app_nil_r; reflexivity.
Qed.

(** Requests whose key is already cached are answered from the cache. *)
Lemma session_run_hits E (forms : list Form) k s w results :
  Forall (fun g => missing_required g = false /\ cache_key g = k) forms ->
  search_cache s !! k = Some results ->
  exists w',
    session_run E forms s w = (Ok (s, map (fun _ => Some results) forms), w') /\
    provider_calls w' = provider_calls w /\
    search_invocations w' = search_invocations w /\
    fs w' = fs w.
Proof.
  intros Hall Hhit. revert w. induction Hall as [|g rest [Hreq Hkey] _ IH]; intros w.
  - exists w. repeat split.
  - rewrite <- Hkey in Hhit.
    destruct (search_clicked_hit E g s w results Hreq Hhit) as (w1 & Hrun & Hp & Hi & Hf).
    rewrite Hkey in Hhit. destruct (IH w1) as (w2 & Hrest & Hp2 & Hi2 & Hf2).
    exists w2. simpl. unfold bind at 1. rewrite Hrun. unfold bind at 1. rewrite Hrest.
    split; [reflexivity|]. rewrite Hp2, Hi2, Hf2. auto.
Qed.

Lemma search_for_invoked E f w r w' :
  search_for E f w = (r, w') -> search_invocations w' = S (search_invocations w).
Proof. unfold search_for. apply search_invocations_step. Qed.

Lemma search_for_calls_provider_once E f w results w' :
  search_for E f w = (Ok results, w') ->
  length (provider_calls w') = S (length (provider_calls w)).
Proof.
  unfold search_for. intros H.
  destruct (search_returns _ _ _ _ _ _ _ _ _ _ _ _ H) as (video0 & video & entry & Hc).
  simpl in Hc. destruct Hc as (_ & Hcalls & _). rewrite Hcalls, length_app. simpl. lia.
Qed.

Example same_search_twice :
  session_summary Demo.twice_run
  = (Some [Some {[ py "eng" := Demo.eng1 ]}; Some {[ py "eng" := Demo.eng1 ]}], 1%nat, 1%nat).
Proof. vm_compute. reflexivity. Qed.

Example failed_search_is_repeated :
  session_summary Demo.flaky_run
  = (Some [Some ∅; Some {[ py "eng" := Demo.eng1 ]}; Some {[ py "eng" := Demo.eng1 ]}],
     2%nat, 2%nat).
Proof. vm_compute. reflexivity. Qed.

(** What one run of the search branch costs: the aggregator is
    entered at most once and the provider called at most once. *)
Lemma search_clicked_cost E (f : Form) (s : Session) (w : World) r w' :
  search_clicked E f s w = (r, w') ->
  (search_invocations w <= search_invocations w' <= S (search_invocations w))%nat /\
  (length (provider_calls w) <= length (provider_calls w')
   <= S (length (provider_calls w)))%nat.
Proof.
  intros H. destruct (missing_required f) eqn:Hreq.
  { unfold search_clicked in H. rewrite Hreq in H.
    unfold bind, streamlit, logging, ret in H. simpl in H. inversion H; subst.
    unfold search_invocations. simpl. rewrite List.filter_app. simpl.
    rewrite app_nil_r. lia. }
  destruct (search_cache s !! cache_key f) as [cached|] eqn:Hc.
  { destruct (search_clicked_hit E f s w cached Hreq Hc) as (w1 & Hrun & Hp & Hi & _).
    rewrite Hrun in H. inversion H; subst. rewrite Hp, Hi. lia. }
  destruct (search_for E f (add_log DEBUG (CacheKeyGenerated (cache_key f)) w))
    as [res w1] eqn:Hs.
  assert (Hcost : provider_calls w' = provider_calls w1 /\
                  search_invocations w' = search_invocations w1).
  { destruct res as [found|e].
    - destruct (search_clicked_stores E f s w found w1 Hreq Hc Hs) as (w2 & Hrun & Hrest).
      rewrite Hrun in H. inversion H; subst. exact Hrest.
    - destruct (search_clicked_fails E f s w e w1 Hreq Hc Hs) as (w2 & Hrun & _ & Hrest).
      rewrite Hrun in H. inversion H; subst. exact Hrest. }
  destruct Hcost as [Hp Hi]. rewrite Hp, Hi, (search_for_invoked _ _ _ _ _ Hs).
  rewrite search_invocations_add_log by reflexivity.
  unfold search_for in Hs. apply search_calls_provider in Hs. simpl in Hs.
  destruct Hs as [Hs|(video0 & video & _ & Hs)]; rewrite Hs; [lia|].
  rewrite length_app. simpl. lia.
Qed.

(** One run either leaves the session as it was or adds an entry
    under a key that had none. *)
Lemma search_clicked_session E (f : Form) (s : Session) (w : World) :
  exists s' out w',
    search_clicked E f s w = (Ok (s', out), w') /\
    (s' = s \/ exists results, search_cache s !! cache_key f = None /\
                               s' = store (cache_key f) results s).
Proof.
  destruct (missing_required f) eqn:Hreq.
  - unfold search_clicked. rewrite Hreq. unfold bind, streamlit, logging, ret. simpl.
    eexists _, _, _. split; [reflexivity|]. left. reflexivity.
  - destruct (search_cache s !! cache_key f) as [results|] eqn:Hc.
    + destruct (search_clicked_hit E f s w results Hreq Hc) as (w' & Hrun & _).
      eexists _, _, _. split; [exact Hrun|]. left. reflexivity.
    + destruct (search_for E f (add_log DEBUG (CacheKeyGenerated (cache_key f)) w))
        as [[results|e] w1] eqn:Hs.
      * destruct (search_clicked_stores E f s w results w1 Hreq Hc Hs) as (w' & Hrun & _).
        eexists _, _, _. split; [exact Hrun|]. right. eauto.
      * destruct (search_clicked_fails E f s w e w1 Hreq Hc Hs) as (w' & Hrun & _).
        eexists _, _, _. split; [exact Hrun|]. left. reflexivity.
Qed.

(** An entry of the result cache outlives every later request: the
    requests with its key are answered with it at no cost, the others
    cost at most one search each. *)
Lemma session_run_keeps_entry (E : Env) (f : Form) (results : Results)
    (forms : list Form) :
  forall (s : Session) (w : World),
    search_cache s !! cache_key f = Some results ->
    exists s' outs w',
      session_run E forms s w = (Ok (s', outs), w') /\
      search_cache s' !! cache_key f = Some results /\
      Forall2 (fun g out => asks_again f g = true -> out = Some results) forms outs /\
      (search_invocations w <= search_invocations w'
       <= search_invocations w + length (other_requests f forms))%nat /\
      (length (provider_calls w) <= length (provider_calls w')
       <= length (provider_calls w) + length (other_requests f forms))%nat.
Proof.
  induction forms as [|g rest IH]; intros s w Hhit.
  - exists s, [], w. split; [reflexivity|]. split; [exact Hhit|].
    split; [constructor|]. simpl. lia.
  - unfold other_requests. cbn [List.filter]. fold (other_requests f rest).
    destruct (asks_again f g) eqn:Hag; cbn [negb].
    + unfold asks_again in Hag. apply andb_true_iff in Hag. destruct Hag as [Hreq Hkey].
      apply negb_true_iff in Hreq. apply bool_decide_eq_true in Hkey.
      rewrite <- Hkey in Hhit.
      destruct (search_clicked_hit E g s w results Hreq Hhit) as (w1 & Hrun & Hp & Hi & _).
      rewrite Hkey in Hhit.
      destruct (IH s w1 Hhit) as (s2 & outs & w2 & Hrest & Hkeep & Hall & Hinv & Hcalls).
      exists s2, (Some results :: outs), w2. simpl. unfold bind at 1. rewrite Hrun.
      unfold bind at 1. rewrite Hrest. split; [reflexivity|]. split; [exact Hkeep|].
      split; [constructor; [reflexivity|exact Hall]|]. rewrite Hp, Hi in *. lia.
    + destruct (search_clicked_session E g s w) as (s1 & out & w1 & Hrun & Hs1).
      destruct (search_clicked_cost _ _ _ _ _ _ Hrun) as [Hi Hp].
      assert (Hhit1 : search_cache s1 !! cache_key f = Some results).
      { destruct Hs1 as [->|(found & Hnone & ->)]; [exact Hhit|]. simpl.
        rewrite lookup_insert_ne; [exact Hhit|]. congruence. }
      destruct (IH s1 w1 Hhit1) as (s2 & outs & w2 & Hrest & Hkeep & Hall & Hinv & Hcalls).
      exists s2, (out :: outs), w2. simpl. unfold bind at 1. rewrite Hrun.
      unfold bind at 1. rewrite Hrest. split; [reflexivity|]. split; [exact Hkeep|].
      split; [constructor; [congruence|exact Hall]|]. simpl. lia.
Qed.

(** C5: in a session whose cache has no entry for the key of request
    [f], let the search for [f] succeed with [results], and let any
    requests follow, in any number and with any keys. Then [f] and
    every later request with its key are answered with [results], and
    the cache still holds [results] under the key at the end. The
    aggregator has been entered and the provider called once for [f]
    and at most once for each later request that is not an accepted
    request with the key of [f]: when all later requests have that key,
    exactly once. A further request with the key is answered from the
    cache without a search. *)
Theorem repeated_search_computes_once E f (rest : list Form) s w results w1 :
  missing_required f = false ->
  search_cache s !! cache_key f = None ->
  search_for E f (add_log DEBUG (CacheKeyGenerated (cache_key f)) w) = (Ok results, w1) ->
  exists s' outs w',
    session_run E (f :: rest) s w = (Ok (s', Some results :: outs), w') /\
    search_cache s' !! cache_key f = Some results /\
    Forall2 (fun g out => asks_again f g = true -> out = Some results) rest outs /\
    (S (search_invocations w) <= search_invocations w'
     <= S (search_invocations w) + length (other_requests f rest))%nat /\
    (S (length (provider_calls w)) <= length (provider_calls w')
     <= S (length (provider_calls w)) + length (other_requests f rest))%nat /\
    forall g w2,
      asks_again f g = true ->
      exists w3,
        search_clicked E g s' w2 = (Ok (s', Some results), w3) /\
        search_invocations w3 = search_invocations w2 /\
        provider_calls w3 = provider_calls w2.
Proof.
  intros Hreq Hmiss Hsearch.
  destruct (search_clicked_stores E f s w results w1 Hreq Hmiss Hsearch)
    as (w2 & Hfirst & Hp & Hi).
  assert (Hstored : search_cache (store (cache_key f) results s) !! cache_key f
                    = Some results) by apply lookup_insert_eq.
  destruct (session_run_keeps_entry E f results rest _ w2 Hstored)
    as (s' & outs & w3 & Hrun & Hkeep & Hall & Hinv & Hcalls).
  exists s', outs, w3.
  split; [simpl; unfold bind at 1; rewrite Hfirst; unfold bind at 1; rewrite Hrun;
          reflexivity|].
  split; [exact Hkeep|]. split; [exact Hall|].
  rewrite Hi, (search_for_invoked _ _ _ _ _ Hsearch) in Hinv.
  rewrite search_invocations_add_log in Hinv by reflexivity.
  rewrite Hp, (search_for_calls_provider_once _ _ _ _ _ Hsearch) in Hcalls.
  simpl in Hcalls.
  split; [exact Hinv|]. split; [exact Hcalls|].
  intros g w4 Hag. unfold asks_again in Hag. apply andb_true_iff in Hag.
  destruct Hag as [Hg Hkey]. apply negb_true_iff in Hg. apply bool_decide_eq_true in Hkey.
  rewrite <- Hkey in Hkeep.
  destruct (search_clicked_hit E g s' w4 results Hg Hkeep) as (w5 & Hhit & Hp5 & Hi5 & _).
  exists w5. auto.
Qed.

(** A request, another request, and the first request again. *)
Lemma repeated_search_computes_once_witness :
  exists s' outs w',
    session_run Demo.env1 (Demo.inception :: Cases.again_after_another) new_session Demo.world
      = (Ok (s', Some {[ py "eng" := Demo.eng1 ]} :: outs), w') /\
    search_cache s' !! cache_key Demo.inception = Some {[ py "eng" := Demo.eng1 ]} /\
    Forall2 (fun g out => asks_again Demo.inception g = true
                          -> out = Some {[ py "eng" := Demo.eng1 ]})
      Cases.again_after_another outs /\
    (S (search_invocations Demo.world) <= search_invocations w'
     <= S (search_invocations Demo.world)
        + length (other_requests Demo.inception Cases.again_after_another))%nat /\
    (S (length (provider_calls Demo.world)) <= length (provider_calls w')
     <= S (length (provider_calls Demo.world))
        + length (other_requests Demo.inception Cases.again_after_another))%nat /\
    forall g w2,
      asks_again Demo.inception g = true ->
      exists w3,
        search_clicked Demo.env1 g s' w2 = (Ok (s', Some {[ py "eng" := Demo.eng1 ]}), w3) /\
        search_invocations w3 = search_invocations w2 /\
        provider_calls w3 = provider_calls w2.
Proof.
  apply (repeated_search_computes_once Demo.env1 Demo.inception Cases.again_after_another
           new_session Demo.world {[ py "eng" := Demo.eng1 ]}
           (search_for Demo.env1 Demo.inception
              (add_log DEBUG (CacheKeyGenerated (cache_key Demo.inception)) Demo.world)).2).
  - reflexivity.
  - reflexivity.
  - vm_compute. reflexivity.
Defined.

(** C10: when the search for a key that is not cached raises, the
    session, and with it the cache, is left as it was; the request is
    answered with the empty result and the error is shown. Any later
    request with the same key in that session enters the aggregator
    again. *)
Theorem failed_search_is_not_cached E f s w e w1 :
  missing_required f = false ->
  search_cache s !! cache_key f = None ->
  search_for E f (add_log DEBUG (CacheKeyGenerated (cache_key f)) w) = (Raise e, w1) ->
  exists w',
    search_clicked E f s w = (Ok (s, Some ∅), w') /\
    In (st_error (py "Error: " ++ exc_str e)) (ui w') /\
    forall g w2 out w3,
      missing_required g = false ->
      cache_key g = cache_key f ->
      search_clicked E g s w2 = (out, w3) ->
      search_invocations w3 = S (search_invocations w2).
Proof.
  intros Hreq Hmiss Hsearch.
  destruct (search_clicked_fails E f s w e w1 Hreq Hmiss Hsearch) as (w' & Hrun & Hui & _).
  exists w'. split; [exact Hrun|]. split.
  - rewrite Hui. apply in_or_app. right. left. reflexivity.
  - intros g w2 out w3 Hg Hkey Hlater. rewrite <- Hkey in Hmiss.
    destruct (search_for E g (add_log DEBUG (CacheKeyGenerated (cache_key g)) w2))
      as [[results|e2] w4] eqn:Hagain.
    + destruct (search_clicked_stores E g s w2 results w4 Hg Hmiss Hagain)
        as (w5 & Hrun5 & _ & Hi5).
      rewrite Hrun5 in Hlater. inversion Hlater; subst.
      rewrite Hi5, (search_for_invoked _ _ _ _ _ Hagain).
      rewrite search_invocations_add_log by reflexivity. reflexivity.
    + destruct (search_clicked_fails E g s w2 e2 w4 Hg Hmiss Hagain)
        as (w5 & Hrun5 & _ & _ & Hi5).
      rewrite Hrun5 in Hlater. inversion Hlater; subst.
      rewrite Hi5, (search_for_invoked _ _ _ _ _ Hagain).
      rewrite search_invocations_add_log by reflexivity. reflexivity.
Qed.

(** The provider is unreachable on the first request. *)
Lemma failed_search_is_not_cached_witness :
  exists w',
    search_clicked Demo.env_flaky Demo.inception new_session Demo.world
      = (Ok (new_session, Some ∅), w') /\
    In (st_error (py "Error: " ++ exc_str Demo.network_down)) (ui w') /\
    forall g w2 out w3,
      missing_required g = false ->
      cache_key g = cache_key Demo.inception ->
      search_clicked Demo.env_flaky g new_session w2 = (out, w3) ->
      search_invocations w3 = S (search_invocations w2).
Proof.
  apply (failed_search_is_not_cached Demo.env_flaky Demo.inception new_session Demo.world
           Demo.network_down
           (search_for Demo.env_flaky Demo.inception
              (add_log DEBUG (CacheKeyGenerated (cache_key Demo.inception)) Demo.world)).2).
  - reflexivity.
  - reflexivity.
  - vm_compute. reflexivity.
Defined.

(** * Further properties of the modelled code *)

(** ** Requests that are rejected *)

Lemma missing_required_true (f : Form) :
  missing_required f = true
  <-> f_title f = [] \/ selected_langs f = [] \/ selected_providers f = [].
Proof.
  unfold missing_required. rewrite !orb_true_iff, !bool_decide_eq_true. tauto.
Qed.

(** X1: a request with an empty title, without a language or without
    a provider is rejected before anything happens: the page shows
    the required-fields error, the session is as it was, the
    aggregator is not entered, the provider is not called and the
    file system is not touched. *)
Theorem incomplete_request_is_rejected E (f : Form) (s : Session) (w : World) :
  f_title f = [] \/ selected_langs f = [] \/ selected_providers f = [] ->
  exists w',
    search_clicked E f s w = (Ok (s, None), w') /\
    ui w' = ui w ++ [st_error (py "Please fill all required fields")] /\
    search_invocations w' = search_invocations w /\
    provider_calls w' = provider_calls w /\
    fs w' = fs w.
Proof.
  intros Hmiss. apply missing_required_true in Hmiss.
  unfold search_clicked. rewrite Hmiss.
  unfold bind, streamlit, logging, ret. simpl.
  eexists. split; [reflexivity|]. simpl. repeat split.
  unfold search_invocations. simpl. rewrite List.filter_app. simpl.
  rewrite app_nil_r. reflexivity.
Qed.

(** A request without a title. *)
Lemma incomplete_request_is_rejected_witness :
  exists w',
    search_clicked Demo.env1 Cases.untitled new_session Demo.world
      = (Ok (new_session, None), w') /\
    ui w' = ui Demo.world ++ [st_error (py "Please fill all required fields")] /\
    search_invocations w' = search_invocations Demo.world /\
    provider_calls w' = provider_calls Demo.world /\
    fs w' = fs Demo.world.
Proof.
  apply (incomplete_request_is_rejected Demo.env1 Cases.untitled new_session Demo.world).
  left. reflexivity.
Defined.

(** ** The search branch as a whole *)

(** X2: no exception leaves the search branch of [main]: every run of
    a sequence of requests ends normally and answers every request,
    whatever the file system and the provider capability do. *)
Theorem search_branch_never_raises E (forms : list Form) (s : Session) (w : World) :
  exists s' outs w',
    session_run E forms s w = (Ok (s', outs), w') /\ length outs = length forms.
Proof.
  revert s w. induction forms as [|f rest IH]; intros s w.
  - exists s, [], w. split; reflexivity.
  - destruct (search_clicked_session E f s w) as (s1 & out & w1 & Hrun & _).
    destruct (IH s1 w1) as (s2 & outs & w2 & Hrest & Hlen).
    exists s2, (out :: outs), w2. simpl. unfold bind at 1. rewrite Hrun.
    unfold bind at 1. rewrite Hrest. split; [reflexivity|]. simpl. rewrite Hlen. reflexivity.
Qed.

(** X3: the result cache only grows. Whatever requests follow, an
    entry that is in the cache stays there with the same result; it is
    neither replaced nor evicted, and the enhancement cache is not
    touched by searches. *)
Theorem cache_entries_persist E (forms : list Form) (s s' : Session) (w w' : World) outs :
  session_run E forms s w = (Ok (s', outs), w') ->
  (forall k results, search_cache s !! k = Some results ->
                     search_cache s' !! k = Some results) /\
  enhanced_subtitles s' = enhanced_subtitles s.
Proof.
  revert s w s' outs w'. induction forms as [|f rest IH]; intros s w s' outs w' H.
  - inversion H; subst. split; auto.
  - destruct (search_clicked_session E f s w) as (s1 & out & w1 & Hrun & Hs1).
    simpl in H. unfold bind at 1 in H. rewrite Hrun in H. unfold bind at 1 in H.
    destruct (session_run E rest s1 w1) as [[[s2 outs2]|e] w2] eqn:Hrest;
      [|discriminate].
    inversion H; subst. destruct (IH _ _ _ _ _ Hrest) as [Hkeep Henh].
    assert (Hstep : (forall k results, search_cache s !! k = Some results ->
                                       search_cache s1 !! k = Some results) /\
                    enhanced_subtitles s1 = enhanced_subtitles s).
    { destruct Hs1 as [->|(results & Hnone & ->)]; [auto|]. split; [|reflexivity].
      intros k r Hk. simpl. rewrite lookup_insert_ne; [exact Hk|]. congruence. }
    destruct Hstep as [Hstep1 Hstep2]. split; [auto|congruence].
Qed.

(** A second request in a session that has an entry. *)
Lemma cache_entries_persist_witness :
  (forall k results, search_cache Cases.seen !! k = Some results ->
                     search_cache Cases.later_session !! k = Some results) /\
  enhanced_subtitles Cases.later_session = enhanced_subtitles Cases.seen.
Proof.
  apply (cache_entries_persist Demo.env1 [Demo.eng_then_fra] Cases.seen Cases.later_session
           Demo.world Cases.later_run.2 Cases.later_answers).
  vm_compute. reflexivity.
Defined.

(** ** Failures of the aggregator *)

Lemma language_set_all_known E (languages : list pystr) langs :
  language_set E languages = Ok langs ->
  forall l, l ∈ languages -> babelfish_known E l = true.
Proof.
  revert langs. induction languages as [|l0 rest IH]; simpl; intros langs H l Hl.
  - apply elem_of_nil in Hl. destruct Hl.
  - unfold Language in H. destruct (babelfish_known E l0) eqn:Hk; [|discriminate].
    destruct (language_set E rest) as [s|e] eqn:Hrest; [|discriminate].
    apply elem_of_cons in Hl. destruct Hl as [->|Hl]; [exact Hk|].
    apply (IH s eq_refl l Hl).
Qed.

(** X4: a language code that [babelfish] does not know makes the
    search fail before the provider capability is reached: whatever
    else happens, the search raises and the provider has not been
    called. *)
Theorem unknown_language_never_reaches_provider E title year media_type languages
    providers_list season episode provider_configs w r w' l :
  l ∈ languages ->
  babelfish_known E l = false ->
  search_and_download_subtitles E title year media_type languages providers_list
    season episode provider_configs w = (r, w') ->
  (exists e, r = Raise e) /\ provider_calls w' = provider_calls w.
Proof.
  intros Hl Hunknown H.
  run_search H; use_mkdtemp_frame;
    try match goal with
    | Hs : language_set _ _ = Ok _ |- _ =>
        apply language_set_all_known with (l := l) in Hs; [congruence|exact Hl]
    end;
    (split; [eexists; reflexivity|]); simpl; congruence.
Qed.

(** English and the code [xxx] are requested. *)
Lemma unknown_language_never_reaches_provider_witness :
  (exists e, Cases.unknown_language_run.1 = Raise e) /\
  provider_calls Cases.unknown_language_run.2 = provider_calls Demo.world.
Proof.
  apply (unknown_language_never_reaches_provider Demo.env1 (py "Inception") 2010
           (py "movie") Cases.eng_and_unknown Demo.only_opensubtitles None None None
           Demo.world Cases.unknown_language_run.1 Cases.unknown_language_run.2 (py "xxx")).
  - apply list_elem_of_In. simpl. auto.
  - vm_compute. reflexivity.
  - vm_compute. reflexivity.
Defined.




(** ** The cache key determines the request *)

Lemma py_cons (a : ascii) (s : string) : py (String a s) = N_of_ascii a :: py s.
Proof. reflexivity. Qed.

Lemma py_inj (s1 s2 : string) : py s1 = py s2 -> s1 = s2.
Proof.
  revert s2. induction s1 as [|a s1 IH]; intros [|b s2] H; try discriminate H.
  - reflexivity.
  - rewrite !py_cons in H. inversion H as [[Ha Hs]].
    apply (f_equal ascii_of_N) in Ha. rewrite !ascii_N_embedding in Ha.
    rewrite Ha, (IH _ Hs). reflexivity.
Qed.

Lemma str_of_int_inj (n m : Z) : str_of_int n = str_of_int m -> n = m.
Proof.
  unfold str_of_int. intros H. apply py_inj in H.
  apply (f_equal NilEmpty.int_of_string) in H. rewrite !NilEmpty.isi in H.
  inversion H as [Hint]. apply DecimalZ.to_int_inj. exact Hint.
Qed.

Lemma string_of_uint_chars (d : Decimal.uint) :
  forallb is_int_char (py (NilEmpty.string_of_uint d)) = true.
Proof. induction d; simpl; rewrite ?py_cons; simpl; auto. Qed.

Lemma str_of_int_chars (n : Z) : forallb is_int_char (str_of_int n) = true.
Proof.
  unfold str_of_int. destruct (Z.to_int n) as [d|d]; unfold NilEmpty.string_of_int.
  - apply string_of_uint_chars.
  - rewrite py_cons. cbn [forallb]. rewrite string_of_uint_chars. reflexivity.
Qed.

Lemma join_cons (sep a : pystr) (l : list pystr) :
  l <> [] -> join sep (a :: l) = a ++ sep ++ join sep l.
Proof. destruct l; [contradiction|reflexivity]. Qed.

Lemma join_app (sep : pystr) (l1 l2 : list pystr) :
  l1 <> [] -> l2 <> [] -> join sep (l1 ++ l2) = join sep l1 ++ sep ++ join sep l2.
Proof.
  intros H1 H2. induction l1 as [|a l1 IH]; [contradiction|].
  destruct l1 as [|b l1].
  - simpl. destruct l2; [contradiction|reflexivity].
  - change ((a :: b :: l1) ++ l2) with (a :: ((b :: l1) ++ l2)).
    rewrite join_cons by discriminate. rewrite IH by discriminate.
    rewrite (join_cons sep a (b :: l1)) by discriminate.
    rewrite <- !app_assoc. reflexivity.
Qed.

Lemma split_app_sep (sep : N) (a b : pystr) :
  split sep (a ++ sep :: b) = split sep a ++ split sep b.
Proof.
  induction a as [|c a IH].
  - simpl. rewrite decide_True by reflexivity. reflexivity.
  - change ((c :: a) ++ sep :: b) with (c :: (a ++ sep :: b)). cbn [split].
    rewrite IH. destruct (decide (c = sep)); [reflexivity|].
    destruct (split sep a) eqn:Hs; [|reflexivity].
    destruct a as [|c' a']; simpl in Hs; [discriminate|].
    destruct (decide (c' = sep)); [discriminate|].
    destruct (split sep a'); discriminate.
Qed.

Lemma split_without_sep (sep : N) (t : pystr) : sep ∉ t -> split sep t = [t].
Proof.
  induction t as [|c t IH]; intros Ht; cbn [split]; [reflexivity|].
  rewrite decide_False by (intros ->; apply Ht, list_elem_of_here).
  rewrite IH; [reflexivity|]. intros Hin. apply Ht, list_elem_of_further, Hin.
Qed.

Lemma split_join (sep : N) (t : pystr) (tokens : list pystr) :
  Forall (fun x => sep ∉ x) tokens ->
  split sep (join [sep] (t :: tokens)) = split sep t ++ tokens.
Proof.
  intros Hall. revert t. induction Hall as [|x rest Hx _ IH]; intros t.
  - simpl. rewrite app_nil_r. reflexivity.
  - rewrite join_cons by discriminate.
    change (t ++ [sep] ++ join [sep] (x :: rest)) with (t ++ sep :: join [sep] (x :: rest)).
    rewrite split_app_sep, IH, (split_without_sep _ _ Hx). reflexivity.
Qed.

Lemma join_split (sep : N) (s : pystr) : join [sep] (split sep s) = s.
Proof.
  induction s as [|c s IH]; [reflexivity|]. cbn [split].
  destruct (decide (c = sep)) as [->|Hc].
  - destruct (split sep s) eqn:Hs.
    + destruct s as [|c' s']; simpl in Hs; [discriminate|].
      destruct (decide (c' = sep)); [discriminate|]. destruct (split sep s'); discriminate.
    + rewrite join_cons by discriminate. rewrite IH. reflexivity.
  - destruct (split sep s) as [|x l] eqn:Hs.
    + destruct s as [|c' s']; simpl in Hs; [discriminate|].
      destruct (decide (c' = sep)); [discriminate|]. destruct (split sep s'); discriminate.
    + destruct l as [|y l].
      * simpl in *. rewrite IH. reflexivity.
      * rewrite join_cons by discriminate. rewrite join_cons in IH by discriminate.
        rewrite <- IH. reflexivity.
Qed.

(** Two lists that end with a marked element followed by unmarked
    ones agree piece by piece. *)
Lemma last_marked_unique {A} (P : A -> bool) (a b : list A) (x y : A) (r s : list A) :
  P x = true -> P y = true ->
  Forall (fun z => P z = false) r -> Forall (fun z => P z = false) s ->
  a ++ x :: r = b ++ y :: s -> a = b /\ x = y /\ r = s.
Proof.
  intros Hx Hy Hr Hs. revert b. induction a as [|c a IH]; intros [|d b] H; simpl in H.
  - inversion H. auto.
  - inversion H; subst. exfalso.
    rewrite Forall_forall in Hr. specialize (Hr y). rewrite Hr in Hy; [discriminate|].
    apply elem_of_app. right. apply list_elem_of_here.
  - inversion H; subst. exfalso.
    rewrite Forall_forall in Hs. specialize (Hs x). rewrite Hs in Hx; [discriminate|].
    apply elem_of_app. right. apply list_elem_of_here.
  - inversion H; subst. destruct (IH b) as (-> & -> & ->); auto.
Qed.

(** Two lists made of marked elements followed by unmarked ones agree
    part by part. *)
Lemma marked_then_unmarked {A} (P : A -> bool) (l1 l2 m1 m2 : list A) :
  Forall (fun z => P z = true) l1 -> Forall (fun z => P z = true) l2 ->
  Forall (fun z => P z = false) m1 -> Forall (fun z => P z = false) m2 ->
  l1 ++ m1 = l2 ++ m2 -> l1 = l2 /\ m1 = m2.
Proof.
  intros H1. revert l2. induction H1 as [|x l1 Hx _ IH]; intros l2 H2 Hm1 Hm2 H.
  - destruct H2 as [|y l2 Hy _]; [auto|]. simpl in H. subst m1.
    inversion Hm1; subst. congruence.
  - destruct H2 as [|y l2 Hy H2]; simpl in H.
    + subst m2. inversion Hm2; subst. congruence.
    + inversion H; subst. destruct (IH l2 H2 Hm1 Hm2) as [-> ->]; auto.
Qed.

Lemma no_such_char (c : N) (t : pystr) : existsb (N.eqb c) t = false -> c ∉ t.
Proof.
  intros H Hin. apply list_elem_of_In in Hin.
  assert (Ht : existsb (N.eqb c) t = true).
  { apply existsb_exists. exists c. split; [exact Hin|apply N.eqb_refl]. }
  congruence.
Qed.

Lemma checked_on_list (p : pystr -> bool) (l : list pystr) :
  forallb p l = true -> forall t, t ∈ l -> p t = true.
Proof.
  intros H t Ht. rewrite forallb_forall in H. apply H, list_elem_of_In, Ht.
Qed.

(** A decimal number is none of a list of words that all contain some
    other character. *)
Lemma int_string_not_in (l : list pystr) (n : Z) :
  forallb (fun t => negb (forallb is_int_char t)) l = true -> str_of_int n ∉ l.
Proof.
  intros H Hin. apply (checked_on_list _ _ H) in Hin.
  rewrite str_of_int_chars in Hin. discriminate.
Qed.

Lemma int_string_plain (n : Z) : underscore ∉ str_of_int n.
Proof.
  intros Hin. pose proof (str_of_int_chars n) as H.
  rewrite forallb_forall in H. apply list_elem_of_In, H in Hin. discriminate.
Qed.

Lemma int_string_other (n : Z) :
  is_kind (str_of_int n) = false /\ is_code (str_of_int n) = false /\
  is_provider (str_of_int n) = false.
Proof.
  split; [|split].
  - unfold is_kind. apply orb_false_iff. split; apply bool_decide_eq_false; intros H.
    + apply (int_string_not_in [py "movie"] n); [reflexivity|]. rewrite H. left.
    + apply (int_string_not_in [py "episode"] n); [reflexivity|]. rewrite H. left.
  - apply bool_decide_eq_false. apply int_string_not_in. reflexivity.
  - apply bool_decide_eq_false. apply int_string_not_in. reflexivity.
Qed.

(** Checks a property of the words of a fixed list by evaluation. *)
Ltac by_table p l H :=
  let Hc := fresh "Hc" in
  assert (Hc : forallb p l = true) by reflexivity;
  apply (checked_on_list p l Hc) in H.

Lemma code_token (t : pystr) :
  t ∈ (LANGUAGES.*1) ->
  (underscore ∉ t) /\ is_kind t = false /\ is_code t = true /\ is_provider t = false.
Proof.
  intros Ht. split; [|split; [|split]].
  - by_table (fun t => negb (existsb (N.eqb underscore) t)) (LANGUAGES.*1) Ht.
    apply no_such_char, negb_true_iff, Ht.
  - by_table (fun t => negb (is_kind t)) (LANGUAGES.*1) Ht.
    apply negb_true_iff in Ht. exact Ht.
  - apply bool_decide_eq_true. exact Ht.
  - by_table (fun t => negb (is_provider t)) (LANGUAGES.*1) Ht.
    apply negb_true_iff in Ht. exact Ht.
Qed.

Lemma provider_token (t : pystr) :
  t ∈ available_providers ->
  (underscore ∉ t) /\ is_kind t = false /\ is_code t = false /\ is_provider t = true.
Proof.
  intros Ht. split; [|split; [|split]].
  - by_table (fun t => negb (existsb (N.eqb underscore) t)) available_providers Ht.
    apply no_such_char, negb_true_iff, Ht.
  - by_table (fun t => negb (is_kind t)) available_providers Ht.
    apply negb_true_iff in Ht. exact Ht.
  - by_table (fun t => negb (is_code t)) available_providers Ht.
    apply negb_true_iff in Ht. exact Ht.
  - apply bool_decide_eq_true. exact Ht.
Qed.

Lemma kind_token (t : pystr) :
  t = py "movie" \/ t = py "episode" -> (underscore ∉ t) /\ is_kind t = true.
Proof. intros [->| ->]; split; try reflexivity; apply no_such_char; reflexivity. Qed.

Lemma number_tokens_other (f : Form) :
  Forall (fun t => (underscore ∉ t) /\ is_kind t = false /\ is_code t = false /\
                   is_provider t = false) (number_tokens f).
Proof.
  unfold number_tokens. destruct (is_episode f); [|constructor].
  repeat constructor; try apply int_string_plain; apply int_string_other.
Qed.

Lemma cache_key_tokens (f : Form) :
  missing_required f = false ->
  cache_key f = join [underscore] (f_title f :: request_tokens f).
Proof.
  unfold missing_required. rewrite !orb_false_iff, !bool_decide_eq_false.
  intros [[_ Hl] Hp]. unfold cache_key, request_tokens.
  change (py "_") with [underscore].
  cbn [app]. rewrite !join_cons by discriminate.
  rewrite join_cons.
  2:{ intros H. apply app_eq_nil in H. destruct H. contradiction. }
  destruct (is_episode f).
  - rewrite join_app; [|exact Hl|].
    2:{ intros H. apply app_eq_nil in H. destruct H. contradiction. }
    rewrite join_app; [|exact Hp|discriminate].
    cbn [join app]. repeat (rewrite <- app_assoc; cbn [app]). reflexivity.
  - rewrite app_nil_r. rewrite join_app; [|exact Hl|exact Hp].
    cbn [app]. reflexivity.
Qed.

(** X6: for requests that come from the widgets of the form and pass
    the required-fields check, the cache key determines the request:
    two requests with the same key have the same title, media type,
    year, languages and providers in the same order and, for an
    episode, the same season and episode. No two different searches
    share a cache entry. *)
Theorem cache_key_determines_request (y1 y2 : Z) (f1 f2 : Form) :
  from_widgets y1 f1 -> from_widgets y2 f2 ->
  missing_required f1 = false -> missing_required f2 = false ->
  cache_key f1 = cache_key f2 ->
  f_title f1 = f_title f2 /\ f_media_type f1 = f_media_type f2 /\
  f_year f1 = f_year f2 /\
  selected_langs f1 = selected_langs f2 /\
  selected_providers f1 = selected_providers f2 /\
  (is_episode f1 = true -> f_season f1 = f_season f2 /\ f_episode f1 = f_episode f2).
Proof.
  intros (Hk1 & _ & _ & _ & Hl1 & Hp1) (Hk2 & _ & _ & _ & Hl2 & Hp2) Hr1 Hr2 Hkey.
  rewrite (cache_key_tokens _ Hr1), (cache_key_tokens _ Hr2) in Hkey.
  apply (f_equal (split underscore)) in Hkey.
  assert (Hplain : forall f : Form,
             (f_media_type f = py "movie" \/ f_media_type f = py "episode") ->
             (forall l, l ∈ selected_langs f -> l ∈ LANGUAGES.*1) ->
             (forall p, p ∈ selected_providers f -> p ∈ available_providers) ->
             Forall (fun x => underscore ∉ x) (request_tokens f) /\
             Forall (fun t => is_kind t = false)
               (str_of_int (f_year f) :: selected_langs f ++ selected_providers f
                ++ number_tokens f) /\
             Forall (fun t => is_code t = true) (selected_langs f) /\
             Forall (fun t => is_code t = false) (selected_providers f ++ number_tokens f) /\
             Forall (fun t => is_provider t = true) (selected_providers f) /\
             Forall (fun t => is_provider t = false) (number_tokens f)).
  { intros f Hk Hl Hp.
    assert (HL : Forall (fun t => (underscore ∉ t) /\ is_kind t = false /\ is_code t = true /\
                                  is_provider t = false) (selected_langs f)).
    { apply Forall_forall. intros t Ht. apply code_token, Hl, Ht. }
    assert (HP : Forall (fun t => (underscore ∉ t) /\ is_kind t = false /\ is_code t = false /\
                                  is_provider t = true) (selected_providers f)).
    { apply Forall_forall. intros t Ht. apply provider_token, Hp, Ht. }
    pose proof (number_tokens_other f) as HN.
    unfold request_tokens. fold (number_tokens f).
    repeat split.
    - constructor; [apply kind_token, Hk|]. constructor; [apply int_string_plain|].
      rewrite !Forall_app. repeat split; eapply Forall_impl; eauto; simpl; tauto.
    - constructor; [apply int_string_other|].
      rewrite !Forall_app. repeat split; eapply Forall_impl; eauto; simpl; tauto.
    - eapply Forall_impl; eauto; simpl; tauto.
    - rewrite Forall_app. split; eapply Forall_impl; eauto; simpl; tauto.
    - eapply Forall_impl; eauto; simpl; tauto.
    - eapply Forall_impl; eauto; simpl; tauto. }
  destruct (Hplain f1 Hk1 Hl1 Hp1) as (Ht1 & Hnk1 & Hc1 & Hnc1 & Hpr1 & Hnp1).
  destruct (Hplain f2 Hk2 Hl2 Hp2) as (Ht2 & Hnk2 & Hc2 & Hnc2 & Hpr2 & Hnp2).
  rewrite (split_join _ _ _ Ht1), (split_join _ _ _ Ht2) in Hkey.
  unfold request_tokens in Hkey. fold (number_tokens f1) (number_tokens f2) in Hkey.
  cbn [app] in Hkey.
  apply (last_marked_unique is_kind) in Hkey;
    [|apply kind_token, Hk1|apply kind_token, Hk2|exact Hnk1|exact Hnk2].
  destruct Hkey as (Htitle & Hmedia & Hrest).
  injection Hrest as Hyear Hlists.
  apply (marked_then_unmarked is_code) in Hlists; [|assumption..].
  destruct Hlists as [Hlangs Hlists].
  apply (marked_then_unmarked is_provider) in Hlists; [|assumption..].
  destruct Hlists as [Hprovs Hnums].
  split; [|split; [exact Hmedia|split; [apply str_of_int_inj, Hyear|]]].
  - rewrite <- (join_split underscore (f_title f1)), Htitle. apply join_split.
  - split; [exact Hlangs|]. split; [exact Hprovs|].
    intros Hep. unfold number_tokens in Hnums.
    assert (Hep2 : is_episode f2 = true) by (unfold is_episode; rewrite <- Hmedia; exact Hep).
    rewrite Hep, Hep2 in Hnums. injection Hnums as Hs He.
    split; apply str_of_int_inj; assumption.
Qed.

(** Two movie requests with one key differ at most in the season and
    episode values, which a movie request does not use. *)
Lemma cache_key_determines_request_witness :
  f_title Demo.eng_then_fra = f_title Demo.eng_then_fra_other_numbers /\
  f_media_type Demo.eng_then_fra = f_media_type Demo.eng_then_fra_other_numbers /\
  f_year Demo.eng_then_fra = f_year Demo.eng_then_fra_other_numbers /\
  selected_langs Demo.eng_then_fra = selected_langs Demo.eng_then_fra_other_numbers /\
  selected_providers Demo.eng_then_fra
    = selected_providers Demo.eng_then_fra_other_numbers /\
  (is_episode Demo.eng_then_fra = true ->
   f_season Demo.eng_then_fra = f_season Demo.eng_then_fra_other_numbers /\
   f_episode Demo.eng_then_fra = f_episode Demo.eng_then_fra_other_numbers).
Proof.
  apply (cache_key_determines_request 2026 2026 Demo.eng_then_fra
           Demo.eng_then_fra_other_numbers).
  - repeat split; try (simpl; lia); try (right; reflexivity); try (left; reflexivity);
      intros x Hx; apply list_elem_of_In in Hx; apply list_elem_of_In;
      simpl in Hx; destruct Hx as [<-|[<-|[]]]; vm_compute; tauto.
  - repeat split; try (simpl; lia); try (right; reflexivity); try (left; reflexivity);
      intros x Hx; apply list_elem_of_In in Hx; apply list_elem_of_In;
      simpl in Hx; destruct Hx as [<-|[<-|[]]]; vm_compute; tauto.
  - reflexivity.
  - reflexivity.
  - reflexivity.
Defined.

(** ** The enhancement pipeline, every outcome *)

(** X7: [enhance_subtitles] never raises. It makes at most one call
    of the completion capability, it returns [None] exactly when it
    has shown one error message, and a text is returned without any
    message. *)
Theorem enhance_never_raises E (sub_content : pystr) (w : World) :
  exists o w',
    enhance_subtitles E sub_content w = (Ok o, w') /\
    (length (completion_calls w') <= S (length (completion_calls w)))%nat /\
    match o with
    | Some _ => ui w' = ui w
    | None => exists msg, ui w' = ui w ++ [st_error msg]
    end.
Proof.
  destruct (OPENROUTER_API_KEY E) as [[|c key]|] eqn:Hkey.
  - unfold enhance_subtitles. rewrite Hkey. eexists _, _.
    split; [reflexivity|]. simpl. split; [lia|]. eexists. reflexivity.
  - rewrite (enhance_with_key_unfold _ _ _ _ _ Hkey). simpl.
    destruct (chat_completions_create E _ _) as [response|e].
    + destruct (call_strip response) as [text|e]; eexists _, _;
        (split; [reflexivity|]); simpl; rewrite length_app; simpl;
        (split; [lia|]); [reflexivity|eexists; reflexivity].
    + eexists _, _. split; [reflexivity|]. simpl. rewrite length_app. simpl.
      split; [lia|]. eexists. reflexivity.
  - unfold enhance_subtitles. rewrite Hkey. eexists _, _.
    split; [reflexivity|]. simpl. split; [lia|]. eexists. reflexivity.
Qed.

Lemma lstrip_spec (s : pystr) :
  exists a, s = a ++ lstrip s /\ forallb isspace a = true /\
            match head (lstrip s) with
            | Some c => isspace c = false
            | None => True
            end.
Proof.
  induction s as [|c s (a & Hs & Ha & Hh)]; [exists []; repeat split|].
  cbn [lstrip]. destruct (isspace c) eqn:Hc.
  - exists (c :: a). simpl. rewrite Hc, Ha. split; [f_equal; exact Hs|]. split; auto.
  - exists []. simpl. repeat split. exact Hc.
Qed.

Lemma last_rev_head {A} (l : list A) : last (rev l) = head l.
Proof. destruct l as [|x l]; [reflexivity|]. simpl. apply last_snoc. Qed.

Lemma rstrip_spec (s : pystr) :
  exists b, s = rstrip s ++ b /\ forallb isspace b = true /\
            match last (rstrip s) with
            | Some c => isspace c = false
            | None => True
            end.
Proof.
  unfold rstrip. destruct (lstrip_spec (rev s)) as (a & Hs & Ha & Hh).
  exists (rev a). split; [|split].
  - rewrite <- rev_app_distr, <- Hs, rev_involutive. reflexivity.
  - rewrite forallb_forall in *. intros x Hx. apply Ha, in_rev, Hx.
  - rewrite last_rev_head. exact Hh.
Qed.

(** What [str.strip] removes and what it leaves. *)
Lemma strip_spec (s : pystr) :
  exists a b, s = a ++ strip s ++ b /\ forallb isspace a = true /\
              forallb isspace b = true /\ no_surrounding_space (strip s).
Proof.
  unfold strip. destruct (lstrip_spec s) as (a & Hs & Ha & Hh).
  destruct (rstrip_spec (lstrip s)) as (b & Hu & Hb & Hl).
  exists a, b. split; [rewrite <- Hu; exact Hs|]. split; [exact Ha|]. split; [exact Hb|].
  split; [|exact Hl].
  destruct (rstrip (lstrip s)) as [|c t] eqn:Hr; [exact I|].
  rewrite Hu in Hh. exact Hh.
Qed.



(** ** Decoding *)

Module Utf8Facts.
Import Utf8.

Example decode_two_bytes : decode [195; 169]%N = Ok [233%N].
Proof. reflexivity. Qed.

Example decode_three_bytes : decode [226; 130; 172]%N = Ok [8364%N].
Proof. reflexivity. Qed.

Example decode_four_bytes : decode [240; 159; 152; 128]%N = Ok [128512%N].
Proof. reflexivity. Qed.

Example decode_latin1 :
  exc_str <$> (match decode [233; 116]%N with Ok _ => None | Raise e => Some e end)
  = Some (py "'utf-8' codec can't decode byte 0xe9 in position 0: invalid continuation byte").
Proof. reflexivity. Qed.

Example decode_truncated :
  exc_str <$> (match decode [104; 226; 130]%N with Ok _ => None | Raise e => Some e end)
  = Some (py "'utf-8' codec can't decode bytes in position 1-2: unexpected end of data").
Proof. reflexivity. Qed.

Example decode_surrogate :
  exc_str <$> (match decode [237; 160; 128]%N with Ok _ => None | Raise e => Some e end)
  = Some (py "'utf-8' codec can't decode byte 0xed in position 0: invalid continuation byte").
Proof. reflexivity. Qed.


Lemma decode_from_ascii (bs : pybytes) :
  forallb (fun b => b <? 128)%N bs = true -> forall pos, decode_from pos bs = Ok bs.
Proof.
  induction bs as [|b bs IH]; intros H pos; [reflexivity|].
  simpl in H. apply andb_true_iff in H. destruct H as [Hb Hbs].
  cbn [decode_from]. rewrite Hb, (IH Hbs). reflexivity.
Qed.



End Utf8Facts.

(** ** The page *)

Lemma table_get_cons (k v : pystr) (d : list (pystr * pystr)) (key : pystr) :
  table_get ((k, v) :: d) key = if decide (k = key) then Ok v else table_get d key.
Proof. reflexivity. Qed.

Lemma table_get_known (d : list (pystr * pystr)) (key : pystr) :
  key ∈ d.*1 -> exists v, table_get d key = Ok v.
Proof.
  induction d as [|[k v] d IH]; intros Hin.
  - apply elem_of_nil in Hin. destruct Hin.
  - rewrite table_get_cons. destruct (decide (k = key)); [eauto|].
    rewrite fmap_cons in Hin. apply elem_of_cons in Hin.
    destruct Hin as [Heq|Hin]; [simpl in Heq; congruence|auto].
Qed.

(** Unfolds the steps of a page computation and reduces the record
    projections, leaving the texts of the page as they are. *)
Ltac page_steps :=
  unfold assign_lang, assign_sub, forget_enhanced, remember_enhanced, Pg.within, Pg.bind,
    Pg.emit, Pg.lift, Pg.ret, Pg.session, Pg.set_session, Pg.frame, Pg.set_frame, Pg.world,
    logging, streamlit;
  cbn [st_world st_session st_frame st_page search_cache enhanced_subtitles
       cell_lang cell_sub fst snd].

Ltac page_calls :=
  unfold offered_originals, enhance_keys;
  rewrite ?omap_app; cbn [omap list_omap]; rewrite ?app_nil_r.

Lemma add_logs_nil (w : World) : add_logs [] w = w.
Proof. destruct w. unfold add_logs. simpl. rewrite app_nil_r. reflexivity. Qed.

Lemma add_logs_app (records1 records2 : list (Level * LogMsg)) (w : World) :
  add_logs records2 (add_logs records1 w) = add_logs (records1 ++ records2) w.
Proof. unfold add_logs. simpl. rewrite app_assoc. reflexivity. Qed.

Lemma render_logged_refl (w : World) : render_logged [] w w.
Proof. exists []. rewrite add_logs_nil. repeat split. Qed.

Lemma render_logged_trans (langs1 langs2 : list pystr) (w w1 w2 : World) :
  render_logged langs1 w w1 -> render_logged langs2 w1 w2 ->
  render_logged (langs1 ++ langs2) w w2.
Proof.
  intros (r1 & -> & Hr1 & <-) (r2 & -> & Hr2 & <-). exists (r1 ++ r2).
  rewrite add_logs_app, forallb_app, Hr1, Hr2. unfold displayed. rewrite omap_app.
  repeat split.
Qed.

Lemma render_logged_display (lang : pystr) (w : World) :
  render_logged [lang] w (add_log DEBUG (DisplayingSubtitle lang) w).
Proof. exists [(DEBUG, DisplayingSubtitle lang)]. repeat split. Qed.

Lemma render_logged_hidden (lang : pystr) (w : World) :
  render_logged [] w (add_log DEBUG (EnhancedHidden lang) w).
Proof. exists [(DEBUG, EnhancedHidden lang)]. repeat split. Qed.

Lemma subtitle_box_keeps title lang sub st r st' :
  subtitle_box title lang sub st = (r, st') ->
  st_world st' = st_world st /\ st_session st' = st_session st /\
  st_frame st' = st_frame st.
Proof.
  unfold subtitle_box. page_steps. intros H.
  destruct (table_get LANGUAGES lang); [destruct (hearing_impaired sub)|];
    inversion H; subst; repeat split.
Qed.

Lemma subtitle_box_known title lang sub st name :
  table_get LANGUAGES lang = Ok name ->
  exists st',
    subtitle_box title lang sub st = (Ok tt, st') /\
    offered_originals (st_page st')
      = offered_originals (st_page st) ++ [(original_name title lang, content sub)] /\
    enhance_keys (st_page st') = enhance_keys (st_page st) ++ [enhance_key lang].
Proof.
  intros Hname. unfold subtitle_box. page_steps. rewrite Hname.
  destruct (hearing_impaired sub); eexists; (split; [reflexivity|]);
    cbn [st_page]; page_calls; split; reflexivity.
Qed.

Lemma enhancement_box_keeps title lang text hide_pressed st r st' :
  enhancement_box title lang text hide_pressed st = (r, st') ->
  st_frame st' = st_frame st /\
  search_cache (st_session st') = search_cache (st_session st) /\
  (enhanced_subtitles (st_session st') = enhanced_subtitles (st_session st) \/
   enhanced_subtitles (st_session st') = delete lang (enhanced_subtitles (st_session st))).
Proof.
  unfold enhancement_box. page_steps. intros H.
  destruct (table_get LANGUAGES lang); [destruct (hide_pressed (hide_key lang))|];
    page_steps; inversion H; subst;
    cbn [st_world st_session st_frame search_cache enhanced_subtitles]; auto.
Qed.

Lemma enhancement_box_known title lang text hide_pressed st name :
  table_get LANGUAGES lang = Ok name ->
  exists st',
    enhancement_box title lang text hide_pressed st = (Ok tt, st') /\
    render_logged [] (st_world st) (st_world st') /\
    enhanced_subtitles (st_session st')
      = (if hide_pressed (hide_key lang)
         then delete lang (enhanced_subtitles (st_session st))
         else enhanced_subtitles (st_session st)) /\
    offered_originals (st_page st') = offered_originals (st_page st) /\
    enhance_keys (st_page st') = enhance_keys (st_page st).
Proof.
  intros Hname. unfold enhancement_box. page_steps. rewrite Hname.
  destruct (hide_pressed (hide_key lang)); page_steps; eexists; (split; [reflexivity|]);
    cbn [st_page st_session st_world enhanced_subtitles]; page_calls;
    (split; [first [apply render_logged_hidden | apply render_logged_refl]|]);
    repeat split; reflexivity.
Qed.

(** One turn of the loop, whatever its outcome: the result cache is as
    before and the enhancement cache has lost at most the entry of the
    language. *)
Lemma render_language_keeps title results hide_pressed lang st r st' :
  render_language title results hide_pressed lang st = (r, st') ->
  search_cache (st_session st') = search_cache (st_session st) /\
  (enhanced_subtitles (st_session st') = enhanced_subtitles (st_session st) \/
   enhanced_subtitles (st_session st') = delete lang (enhanced_subtitles (st_session st))).
Proof.
  unfold render_language. page_steps. intros H.
  destruct (results !! lang) as [sub|]; [|inversion H; subst; auto].
  page_steps.
  match type of H with
  | context [subtitle_box title lang sub ?s] =>
      destruct (subtitle_box title lang sub s) as [[[]|e] st1] eqn:Hbox;
      apply subtitle_box_keeps in Hbox; cbn [st_world st_session st_frame] in Hbox;
      destruct Hbox as (_ & Hs & _)
  end.
  - destruct (enhanced_subtitles (st_session st1) !! lang) as [text|].
    + apply enhancement_box_keeps in H. destruct H as (_ & Hc & He).
      rewrite Hs in Hc, He. auto.
    + inversion H; subst. rewrite Hs. auto.
  - inversion H; subst. rewrite Hs. auto.
Qed.

Lemma shown_cons (results : Results) (lang : pystr) (rest : list pystr) :
  shown results (lang :: rest) = shown results [lang] ++ shown results rest.
Proof.
  unfold shown. cbn [List.filter].
  destruct (bool_decide (is_Some (results !! lang))); reflexivity.
Qed.

(** One turn of the loop for a language of the table. *)
Lemma render_language_known title results hide_pressed lang st :
  lang ∈ LANGUAGES.*1 ->
  exists st',
    render_language title results hide_pressed lang st = (Ok tt, st') /\
    render_logged (shown results [lang]) (st_world st) (st_world st') /\
    search_cache (st_session st') = search_cache (st_session st) /\
    st_frame st' = {| cell_lang := Some lang;
                      cell_sub := match results !! lang with
                                  | Some sub => Some sub
                                  | None => cell_sub (st_frame st)
                                  end |} /\
    enhanced_subtitles (st_session st')
      = (if hidden results hide_pressed lang
         then delete lang (enhanced_subtitles (st_session st))
         else enhanced_subtitles (st_session st)) /\
    offered_originals (st_page st')
      = offered_originals (st_page st) ++ option_list (original_of title results lang) /\
    enhance_keys (st_page st')
      = enhance_keys (st_page st) ++ option_list (enhance_key_of results lang).
Proof.
  intros Hknown. destruct (table_get_known _ _ Hknown) as [name Hname].
  unfold render_language, hidden, original_of, enhance_key_of, shown. page_steps.
  cbn [List.filter].
  destruct (results !! lang) as [sub|] eqn:Hres.
  - page_steps. rewrite bool_decide_eq_true_2 by eauto.
    cbn [andb fmap option_fmap option_map option_list].
    match goal with
    | |- context [subtitle_box title lang sub ?s] =>
        destruct (subtitle_box_known title lang sub s name Hname) as (st1 & Hbox & Ho & Hk);
        pose proof (subtitle_box_keeps _ _ _ _ _ _ Hbox) as (Hw & Hs & Hf);
        rewrite Hbox
    end.
    cbn [st_world st_session st_frame st_page] in *.
    unfold offered_originals, enhance_keys in Ho, Hk.
    fold (offered_originals (st_page st1)) in Ho.
    fold (offered_originals (st_page st)) in Ho.
    fold (enhance_keys (st_page st1)) in Hk. fold (enhance_keys (st_page st)) in Hk.
    assert (Hlog : render_logged [lang] (st_world st) (st_world st1)).
    { rewrite Hw. apply render_logged_display. }
    destruct (enhanced_subtitles (st_session st1) !! lang) as [text|] eqn:Hen.
    + destruct (enhancement_box_known title lang text hide_pressed st1 name Hname)
        as (st2 & Hbox2 & Hlog2 & He2 & Ho2 & Hk2).
      pose proof (enhancement_box_keeps _ _ _ _ _ _ _ Hbox2) as (Hf2 & Hc2 & _).
      exists st2. split; [exact Hbox2|].
      split; [apply (render_logged_trans [lang] [] _ _ _ Hlog Hlog2)|].
      rewrite Hc2, Hf2, Hf, He2, Ho2, Hk2, Ho, Hk, Hs.
      repeat split; reflexivity.
    + exists st1. split; [reflexivity|]. split; [exact Hlog|]. rewrite Hf, Ho, Hk, Hs.
      split; [reflexivity|]. split; [reflexivity|]. split; [|split; reflexivity].
      rewrite Hs in Hen. rewrite (delete_id _ _ Hen).
      destruct (hide_pressed (hide_key lang)); reflexivity.
  - rewrite bool_decide_eq_false_2 by (intros [? ?]; discriminate).
    cbn [andb fmap option_fmap option_map option_list].
    eexists. split; [reflexivity|]. cbn [st_frame st_session st_page st_world].
    rewrite !app_nil_r. split; [apply render_logged_refl|]. repeat split; reflexivity.
Qed.

Lemma omap_cons_option {A B} (f : A -> option B) (x : A) (l : list A) :
  omap f (x :: l) = option_list (f x) ++ omap f l.
Proof. simpl. destruct (f x); reflexivity. Qed.

(** The loop over languages of the table. *)
Lemma for_each_language_known title results hide_pressed (langs : list pystr) :
  (forall l, l ∈ langs -> l ∈ LANGUAGES.*1) ->
  forall st, exists st',
    for_each langs (render_language title results hide_pressed) st = (Ok tt, st') /\
    render_logged (shown results langs) (st_world st) (st_world st') /\
    search_cache (st_session st') = search_cache (st_session st) /\
    st_frame st' = frame_after results langs (st_frame st) /\
    (forall l, enhanced_subtitles (st_session st') !! l
               = if bool_decide (l ∈ langs) && hidden results hide_pressed l
                 then None else enhanced_subtitles (st_session st) !! l) /\
    offered_originals (st_page st')
      = offered_originals (st_page st) ++ omap (original_of title results) langs /\
    enhance_keys (st_page st')
      = enhance_keys (st_page st) ++ omap (enhance_key_of results) langs.
Proof.
  induction langs as [|lang rest IH]; intros Hknown st.
  - exists st. split; [reflexivity|]. split; [apply render_logged_refl|].
    unfold frame_after. simpl.
    rewrite !app_nil_r. destruct (st_frame st). repeat split; reflexivity.
  - destruct (render_language_known title results hide_pressed lang st)
      as (st1 & Hrun & Hw1 & Hc1 & Hf1 & He1 & Ho1 & Hk1); [apply Hknown; left|].
    destruct (IH (fun l Hl => Hknown l (list_elem_of_further _ _ _ Hl)) st1)
      as (st2 & Hrest & Hw2 & Hc2 & Hf2 & He2 & Ho2 & Hk2).
    exists st2. cbn [for_each]. unfold Pg.bind at 1. rewrite Hrun.
    split; [exact Hrest|].
    split; [rewrite shown_cons; apply (render_logged_trans _ _ _ _ _ Hw1 Hw2)|].
    split; [congruence|].
    split; [|split; [|split]].
    + rewrite Hf2, Hf1. unfold frame_after. cbn [cell_lang cell_sub].
      rewrite last_cons, omap_cons_option. cbn beta.
      destruct (results !! lang) as [sub|]; cbn [option_list option_rect app];
        rewrite ?last_cons;
        destruct (last rest);
        destruct (last (omap (fun lang => results !! lang) rest)); reflexivity.
    + intros l. rewrite He2, He1.
      destruct (decide (l = lang)) as [->|Hne].
      * rewrite (bool_decide_eq_true_2 (lang ∈ lang :: rest)) by left.
        destruct (hidden results hide_pressed lang); cbn [andb].
        -- rewrite lookup_delete_eq. destruct (bool_decide (lang ∈ rest)); reflexivity.
        -- rewrite andb_false_r. reflexivity.
      * assert (Hin : bool_decide (l ∈ lang :: rest) = bool_decide (l ∈ rest)).
        { apply bool_decide_ext. rewrite elem_of_cons. tauto. }
        rewrite Hin. destruct (bool_decide (l ∈ rest) && hidden results hide_pressed l);
          [reflexivity|].
        destruct (hidden results hide_pressed lang); [apply lookup_delete_ne; auto|reflexivity].
    + rewrite Ho2, Ho1, omap_cons_option, app_assoc. reflexivity.
    + rewrite Hk2, Hk1, omap_cons_option, app_assoc. reflexivity.
Qed.

(** The loop, whatever its outcome. *)
Lemma for_each_language_keeps title results hide_pressed (langs : list pystr) :
  forall st r st',
    for_each langs (render_language title results hide_pressed) st = (r, st') ->
    search_cache (st_session st') = search_cache (st_session st) /\
    enhanced_subtitles (st_session st') ⊆ enhanced_subtitles (st_session st).
Proof.
  induction langs as [|lang rest IH]; intros st r st' H.
  - inversion H; subst. repeat split; reflexivity.
  - cbn [for_each] in H. unfold Pg.bind at 1 in H.
    destruct (render_language title results hide_pressed lang st) as [[[]|e] st1] eqn:Hrun;
      pose proof (render_language_keeps _ _ _ _ _ _ _ Hrun) as (Hc1 & He1).
    + destruct (IH _ _ _ H) as (Hc2 & He2).
      split; [congruence|].
      etransitivity; [exact He2|].
      destruct He1 as [->| ->]; [reflexivity|apply delete_subseteq].
    + inversion H; subst. split; [exact Hc1|].
      destruct He1 as [->| ->]; [reflexivity|apply delete_subseteq].
Qed.

Lemma render_results_unfold title langs results hide_pressed st :
  render_results title langs results hide_pressed st
  = for_each langs (render_language title results hide_pressed)
      {| st_world := st_world st; st_session := st_session st; st_frame := st_frame st;
         st_page := (st_page st ++ [pg_subheader (py "Search Results:")])
                    ++ [pg_markdown style_sheet true] |}.
Proof. reflexivity. Qed.



(** The log of that rendering. *)
Example rendering_log :
  log (st_world Cases.rendered.2)
  = [(DEBUG, DisplayingSubtitle (py "eng")); (DEBUG, EnhancedHidden (py "eng"))].
Proof. vm_compute. reflexivity. Qed.

(** X10: after the rendering, the enhanced text of a language is gone
    exactly when the language was selected, has a subtitle in the
    result and its hide button reports a press; every other entry of
    the enhancement cache is as before. Removing an entry never
    fails. *)
Theorem hide_removes_exactly_the_pressed title langs results hide_pressed st :
  (forall l, l ∈ langs -> l ∈ LANGUAGES.*1) ->
  exists st',
    render_results title langs results hide_pressed st = (Ok tt, st') /\
    forall l, enhanced_subtitles (st_session st') !! l
              = if bool_decide (l ∈ langs) && hidden results hide_pressed l
                then None else enhanced_subtitles (st_session st) !! l.
Proof.
  intros Hknown. rewrite render_results_unfold.
  match goal with
  | |- context [for_each _ _ ?s] =>
      destruct (for_each_language_known title results hide_pressed langs Hknown s)
        as (st' & Hrun & _ & _ & _ & He & _)
  end.
  exists st'. split; [exact Hrun|exact He].
Qed.

(** The hide button of the English box is pressed. *)
Lemma hide_removes_exactly_the_pressed_witness :
  exists st',
    render_results (py "Inception") Cases.eng_and_fra {[ py "eng" := Demo.eng1 ]}
      Cases.hide_eng Cases.enhanced_eng = (Ok tt, st') /\
    forall l, enhanced_subtitles (st_session st') !! l
              = if bool_decide (l ∈ Cases.eng_and_fra)
                   && hidden {[ py "eng" := Demo.eng1 ]} Cases.hide_eng l
                then None else enhanced_subtitles (st_session Cases.enhanced_eng) !! l.
Proof.
  apply (hide_removes_exactly_the_pressed (py "Inception") Cases.eng_and_fra
           {[ py "eng" := Demo.eng1 ]} Cases.hide_eng Cases.enhanced_eng).
  intros x Hx. apply list_elem_of_In in Hx. apply list_elem_of_In.
  simpl in Hx. destruct Hx as [<-|[<-|[]]]; vm_compute; tauto.
Defined.

(** ** The button callback and the interactions *)

Lemma no_surrounding_space_strip (text : pystr) : no_surrounding_space (strip text).
Proof. destruct (strip_spec text) as (a & b & _ & _ & _ & H). exact H. Qed.

(** A text that [enhance_subtitles] returns is a stripped plain-string
    answer of the completion capability. *)
Lemma enhance_returns_stripped E sub_content w t w' :
  enhance_subtitles E sub_content w = (Ok (Some t), w') ->
  exists n rq text, chat_completions_create E n rq = Ok (PlainText text) /\ t = strip text.
Proof.
  destruct (OPENROUTER_API_KEY E) as [[|c key]|] eqn:Hkey.
  - unfold enhance_subtitles. rewrite Hkey. discriminate.
  - rewrite (enhance_with_key_unfold _ _ _ _ _ Hkey). simpl.
    destruct (chat_completions_create E _ _) as [[choices|text]|e] eqn:Hc; simpl;
      try discriminate.
    intros H. inversion H. eauto.
  - unfold enhance_subtitles. rewrite Hkey. discriminate.
Qed.

(** The callback, whatever its outcome: the result cache is as
    before, the page gets no button, and the enhancement cache is as
    before or has got, under [lang], the non-empty stripped text of a
    plain-string answer. *)
Lemma callback_keeps E lang sub st r st' :
  Button_to_enhance_subtitle_with_AI E lang sub st = (r, st') ->
  search_cache (st_session st') = search_cache (st_session st) /\
  enhance_keys (st_page st') = enhance_keys (st_page st) /\
  st_frame st' = st_frame st /\
  (enhanced_subtitles (st_session st') = enhanced_subtitles (st_session st) \/
   exists n rq text,
     chat_completions_create E n rq = Ok (PlainText text) /\ strip text <> [] /\
     enhanced_subtitles (st_session st')
       = <[lang := strip text]> (enhanced_subtitles (st_session st))).
Proof.
  unfold Button_to_enhance_subtitle_with_AI. page_steps. intros H.
  destruct (Utf8.decode (content sub)) as [text|e].
  - page_steps.
    match type of H with
    | context [enhance_subtitles E text ?w0] =>
        destruct (enhance_subtitles E text w0) as [[o|e] w'] eqn:Hen
    end.
    + destruct o as [[|c t]|]; page_steps; inversion H; subst;
        cbn [st_session st_page st_frame search_cache enhanced_subtitles];
        page_calls; (split; [reflexivity|]); (split; [reflexivity|]);
        (split; [reflexivity|]); auto.
      destruct (enhance_returns_stripped _ _ _ _ _ Hen) as (n & rq & answer & Hc & Hanswer).
      right. exists n, rq, answer. rewrite <- Hanswer.
      split; [exact Hc|]. split; [discriminate|reflexivity].
    + inversion H; subst. cbn [st_session st_page st_frame]. page_calls. auto.
  - inversion H; subst. cbn [st_session st_page st_frame]. page_calls. auto.
Qed.



Lemma search_clicked_result E f s w s' results w' :
  search_clicked E f s w = (Ok (s', Some results), w') ->
  enhanced_subtitles s' = enhanced_subtitles s /\
  (results = ∅ \/ search_cache s' !! cache_key f = Some results).
Proof.
  intros H. destruct (missing_required f) eqn:Hreq.
  - unfold search_clicked in H. rewrite Hreq in H.
    unfold bind, streamlit, logging, ret in H. simpl in H. discriminate.
  - destruct (search_cache s !! cache_key f) as [cached|] eqn:Hc.
    + destruct (search_clicked_hit E f s w cached Hreq Hc) as (w1 & Hrun & _).
      rewrite Hrun in H. inversion H; subst. auto.
    + destruct (search_for E f (add_log DEBUG (CacheKeyGenerated (cache_key f)) w))
        as [[found|e] w1] eqn:Hs.
      * destruct (search_clicked_stores E f s w found w1 Hreq Hc Hs) as (w2 & Hrun & _).
        rewrite Hrun in H. inversion H; subst. split; [reflexivity|]. right.
        apply lookup_insert_eq.
      * destruct (search_clicked_fails E f s w e w1 Hreq Hc Hs) as (w2 & Hrun & _).
        rewrite Hrun in H. inversion H; subst. auto.
Qed.

Lemma search_clicked_keeps_enhanced E f s w r w' :
  search_clicked E f s w = (r, w') ->
  exists s' out, r = Ok (s', out) /\ enhanced_subtitles s' = enhanced_subtitles s.
Proof.
  intros H. destruct (search_clicked_session E f s w) as (s' & out & w1 & Hrun & Hs).
  rewrite Hrun in H. inversion H; subst. exists s', out. split; [reflexivity|].
  destruct Hs as [->|(results & _ & ->)]; reflexivity.
Qed.

(** A search run only removes entries from the enhancement cache. *)
Lemma search_page_keeps E f hide_pressed s w r st' :
  search_page E f hide_pressed s w = (r, st') ->
  enhanced_subtitles (st_session st') ⊆ enhanced_subtitles s.
Proof.
  unfold search_page.
  destruct (search_clicked E f s w) as [res w1] eqn:Hrun.
  destruct (search_clicked_keeps_enhanced _ _ _ _ _ _ Hrun) as (s1 & out & -> & Hen).
  destruct out as [results|].
  - destruct (bool_decide (results = ∅)).
    + intros H. inversion H; subst. cbn [st_session]. rewrite Hen. reflexivity.
    + rewrite render_results_unfold. intros H.
      apply for_each_language_keeps in H. destruct H as (_ & Hsub).
      cbn [st_session] in Hsub. rewrite Hen in Hsub. exact Hsub.
  - intros H. inversion H; subst. cbn [st_session]. rewrite Hen. reflexivity.
Qed.

Lemma clean_enhanced_subseteq (s s' : Session) :
  enhanced_subtitles s' ⊆ enhanced_subtitles s -> clean_enhanced s -> clean_enhanced s'.
Proof.
  intros Hsub Hclean lang text Hl. apply (Hclean lang).
  eapply lookup_weaken; eauto.
Qed.

Lemma interact_keeps_clean E (i : Interaction) (st : Stage) :
  clean_enhanced (st_session st) -> clean_enhanced (st_session (interact E i st).2).
Proof.
  intros Hclean. destruct i as [f hide_pressed|key]; cbn [interact].
  - destruct (search_page E f hide_pressed (st_session st) (st_world st)) as [r st'] eqn:H.
    apply search_page_keeps in H. cbn [snd].
    eapply clean_enhanced_subseteq; eauto.
  - destruct (bool_decide (key ∈ enhance_keys (st_page st))); [|exact Hclean].
    destruct (cell_lang (st_frame st)) as [lang|]; [|exact Hclean].
    destruct (cell_sub (st_frame st)) as [sub|]; [|exact Hclean].
    destruct (Button_to_enhance_subtitle_with_AI E lang sub (next_page st)) as [r st']
      eqn:H.
    apply callback_keeps in H. destruct H as (_ & _ & _ & He). cbn [snd].
    cbn [next_page st_session] in He.
    intros l text Hl. destruct He as [He|(n & rq & answer & _ & Hne & He)]; rewrite He in Hl.
    + apply (Hclean l), Hl.
    + destruct (decide (lang = l)) as [->|Hneq].
      * rewrite lookup_insert_eq in Hl. inversion Hl; subst.
        split; [exact Hne|apply no_surrounding_space_strip].
      * rewrite lookup_insert_ne in Hl by exact Hneq. apply (Hclean l), Hl.
Qed.

(** X12: whatever the user does in a session, in whatever order, and
    whatever the capabilities answer, every text in the enhancement
    cache is non-empty and has no white space around it: an empty
    enhancement is treated as a failure and is not stored. *)
Theorem enhancement_cache_stays_clean E (steps : list Interaction) (w : World) :
  clean_enhanced (st_session (interactions E steps (first_stage w))).
Proof.
  assert (Hgen : forall st, clean_enhanced (st_session st) ->
                            clean_enhanced (st_session (interactions E steps st))).
  { induction steps as [|i rest IH]; intros st Hclean; [exact Hclean|].
    cbn [interactions]. apply IH, interact_keeps_clean, Hclean. }
  apply Hgen. intros lang text Hl. cbn [first_stage st_session new_session] in Hl.
  simpl in Hl. rewrite lookup_empty in Hl. discriminate.
Qed.

(** X13: the callback reads the variables of [main] when it is
    called. After a search run has shown its results, every enhance
    button of the page, whichever language it belongs to, enhances the
    subtitle that was shown last and stores the text under the
    language that was selected last. *)
Theorem enhance_buttons_share_the_last_language E f hide_pressed s w st' key :
  (forall l, l ∈ selected_langs f -> l ∈ LANGUAGES.*1) ->
  search_page E f hide_pressed s w = (Ok tt, st') ->
  key ∈ enhance_keys (st_page st') ->
  exists results lang sub,
    search_cache (st_session st') !! cache_key f = Some results /\
    last (selected_langs f) = Some lang /\
    last (omap (fun l => results !! l) (selected_langs f)) = Some sub /\
    interact E (press_enhance key) st'
      = Button_to_enhance_subtitle_with_AI E lang sub (next_page st').
Proof.
  intros Hknown Hrun Hkey. unfold search_page in Hrun.
  destruct (search_clicked E f s w) as [[[s1 [results|]]|e] w1] eqn:Hsearch;
    [| |discriminate].
  2:{ inversion Hrun; subst. cbn [st_page enhance_keys omap list_omap] in Hkey.
      apply elem_of_nil in Hkey. destruct Hkey. }
  destruct (search_clicked_result _ _ _ _ _ _ _ Hsearch) as (_ & Hres).
  destruct (bool_decide (results = ∅)) eqn:Hempty.
  { inversion Hrun; subst. cbn [st_page enhance_keys omap list_omap] in Hkey.
    apply elem_of_nil in Hkey. destruct Hkey. }
  apply bool_decide_eq_false in Hempty. destruct Hres as [Hres|Hres]; [contradiction|].
  rewrite render_results_unfold in Hrun.
  match type of Hrun with
  | for_each _ _ ?s0 = _ =>
      destruct (for_each_language_known (f_title f) results hide_pressed
                  (selected_langs f) Hknown s0)
        as (st2 & Hrun2 & _ & Hc & Hf & _ & _ & Hk)
  end.
  rewrite Hrun2 in Hrun. inversion Hrun; subst st2.
  cbn [st_session st_frame st_page] in Hc, Hf, Hk.
  unfold enhance_keys at 2 in Hk. rewrite !omap_app in Hk.
  cbn [omap list_omap app] in Hk. rewrite Hk in Hkey.
  apply list_elem_of_omap in Hkey. destruct Hkey as (l & Hl & Hkl).
  unfold enhance_key_of in Hkl. destruct (results !! l) as [found|] eqn:Hfound;
    [|discriminate].
  assert (Hlast : exists lang, last (selected_langs f) = Some lang).
  { destruct (last (selected_langs f)) eqn:Hlast; [eauto|].
    apply last_None in Hlast. rewrite Hlast in Hl. apply elem_of_nil in Hl. destruct Hl. }
  assert (Hsub : exists sub, last (omap (fun l => results !! l) (selected_langs f))
                             = Some sub).
  { destruct (last (omap _ (selected_langs f))) eqn:Hsub; [eauto|].
    apply last_None in Hsub.
    assert (Hin : found ∈ omap (fun l => results !! l) (selected_langs f)).
    { apply list_elem_of_omap. eauto. }
    rewrite Hsub in Hin. apply elem_of_nil in Hin. destruct Hin. }
  destruct Hlast as [lang Hlang]. destruct Hsub as [sub Hsub].
  exists results, lang, sub. split; [rewrite Hc; exact Hres|].
  split; [exact Hlang|]. split; [exact Hsub|].
  cbn [interact]. rewrite bool_decide_eq_true_2.
  - rewrite Hf. unfold frame_after. cbn [cell_lang cell_sub]. rewrite Hlang, Hsub.
    reflexivity.
  - rewrite Hk. apply list_elem_of_omap. exists l. split; [exact Hl|].
    unfold enhance_key_of. rewrite Hfound. exact Hkl.
Qed.

(** English and French are shown; the English button is pressed. *)
Lemma enhance_buttons_share_the_last_language_witness :
  exists results lang sub,
    search_cache (st_session Cases.two_boxes.2) !! cache_key Demo.eng_then_fra
      = Some results /\
    last (selected_langs Demo.eng_then_fra) = Some lang /\
    last (omap (fun l => results !! l) (selected_langs Demo.eng_then_fra)) = Some sub /\
    interact Cases.env_two (press_enhance (enhance_key (py "eng"))) Cases.two_boxes.2
      = Button_to_enhance_subtitle_with_AI Cases.env_two lang sub
          (next_page Cases.two_boxes.2).
Proof.
  apply (enhance_buttons_share_the_last_language Cases.env_two Demo.eng_then_fra
           (fun _ => false) new_session Demo.world Cases.two_boxes.2
           (enhance_key (py "eng"))).
  - intros x Hx. apply list_elem_of_In in Hx. apply list_elem_of_In.
    simpl in Hx. destruct Hx as [<-|[<-|[]]]; vm_compute; tauto.
  - vm_compute. reflexivity.
  - apply list_elem_of_In. vm_compute. tauto.
Defined.

(** X14: a text gets into the enhancement cache only from a
    plain-string answer of the completion capability. With a
    capability that answers with completion objects or fails, the
    enhancement cache stays empty whatever the user does: no enhanced
    subtitle is ever shown or offered for download. *)
Theorem no_enhancement_without_text_answer E (steps : list Interaction) (w : World) :
  (forall n rq text, chat_completions_create E n rq <> Ok (PlainText text)) ->
  enhanced_subtitles (st_session (interactions E steps (first_stage w))) = ∅.
Proof.
  intros Hnever.
  assert (Hgen : forall st, enhanced_subtitles (st_session st) = ∅ ->
                            enhanced_subtitles (st_session (interactions E steps st)) = ∅).
  { induction steps as [|i rest IH]; intros st Hst; [exact Hst|].
    cbn [interactions]. apply IH. destruct i as [f hide_pressed|key]; cbn [interact].
    - destruct (search_page E f hide_pressed (st_session st) (st_world st)) as [r st']
        eqn:H.
      apply search_page_keeps in H. cbn [snd]. rewrite Hst in H.
      apply map_empty. intros l.
      destruct (enhanced_subtitles (st_session st') !! l) as [text|] eqn:Hl; [|reflexivity].
      apply (lookup_weaken _ _ _ _ Hl) in H. rewrite lookup_empty in H. discriminate.
    - destruct (bool_decide (key ∈ enhance_keys (st_page st))); [|exact Hst].
      destruct (cell_lang (st_frame st)) as [lang|]; [|exact Hst].
      destruct (cell_sub (st_frame st)) as [sub|]; [|exact Hst].
      destruct (Button_to_enhance_subtitle_with_AI E lang sub (next_page st)) as [r st']
        eqn:H.
      apply callback_keeps in H. destruct H as (_ & _ & _ & He). cbn [snd].
      destruct He as [He|(n & rq & answer & Hc & _)].
      + rewrite He. exact Hst.
      + destruct (Hnever _ _ _ Hc). }
  apply Hgen. reflexivity.
Qed.

(** The capability answers with completion objects. *)
Lemma no_enhancement_without_text_answer_witness :
  enhanced_subtitles
    (st_session (interactions Demo.env_completes Cases.search_then_enhance
                   (first_stage Demo.world))) = ∅.
Proof.
  apply (no_enhancement_without_text_answer Demo.env_completes Cases.search_then_enhance
           Demo.world).
  intros n rq text H. discriminate H.
Defined.

(** ** What a request hands to the provider *)

(** X15: one run of the search branch calls the provider capability
    at most once. The call carries the providers as they were
    selected, the set of the selected languages, the title and the
    year of the form, and credentials for [opensubtitles] alone, which
    are handed over only when [opensubtitles] is among the selected
    providers. *)
Theorem provider_gets_the_selection E (f : Form) (s : Session) (w : World) r w' :
  search_clicked E f s w = (r, w') ->
  provider_calls w' = provider_calls w \/
  exists call,
    provider_calls w' = provider_calls w ++ [call] /\
    pc_providers call = selected_providers f /\
    pc_languages call = list_to_set (selected_langs f) /\
    v_title (pc_video call) = Some (f_title f) /\
    v_year (pc_video call) = Some (f_year f) /\
    forall p creds,
      pc_configs call !! p = Some creds <->
      p = py "opensubtitles" /\ p ∈ selected_providers f /\
      creds = {| username := OPEN_SUBTITLES_USERNAME E;
                 password := OPEN_SUBTITLES_PASSWORD E |}.
Proof.
  intros H. destruct (missing_required f) eqn:Hreq.
  { unfold search_clicked in H. rewrite Hreq in H.
    unfold bind, streamlit, logging, ret in H. simpl in H. inversion H. left. reflexivity. }
  destruct (search_cache s !! cache_key f) as [cached|] eqn:Hc.
  { destruct (search_clicked_hit E f s w cached Hreq Hc) as (w1 & Hrun & Hp & _).
    rewrite Hrun in H. inversion H; subst. left. exact Hp. }
  destruct (search_for E f (add_log DEBUG (CacheKeyGenerated (cache_key f)) w))
    as [res w1] eqn:Hs.
  assert (Hp : provider_calls w' = provider_calls w1).
  { destruct res as [found|e].
    - destruct (search_clicked_stores E f s w found w1 Hreq Hc Hs) as (w2 & Hrun & Hrest).
      rewrite Hrun in H. inversion H; subst. apply Hrest.
    - destruct (search_clicked_fails E f s w e w1 Hreq Hc Hs) as (w2 & Hrun & Hrest).
      rewrite Hrun in H. inversion H; subst. apply Hrest. }
  unfold search_for in Hs. apply search_calls_provider in Hs. simpl in Hs.
  destruct Hs as [Hs|(video0 & video & Hmeta & Hs)]; [left; congruence|].
  destruct (set_metadata_ok _ _ _ _ _ _ _ Hmeta) as (Htitle & Hyear & _).
  right. eexists. split; [rewrite Hp; exact Hs|].
  cbn [pc_providers pc_languages pc_video pc_configs configs_or_empty].
  split; [reflexivity|]. split; [reflexivity|]. split; [exact Htitle|].
  split; [exact Hyear|].
  intros p creds. unfold build_provider_configs. case_bool_decide as Hsel.
  - rewrite lookup_singleton_Some. split.
    + intros [<- <-]. auto.
    + intros (-> & _ & ->). auto.
  - rewrite lookup_empty. split; [discriminate|]. intros (-> & Hin & _). contradiction.
Qed.

(** The first request of a session. *)
Lemma provider_gets_the_selection_witness :
  provider_calls Cases.first_request.2 = provider_calls Demo.world \/
  exists call,
    provider_calls Cases.first_request.2 = provider_calls Demo.world ++ [call] /\
    pc_providers call = selected_providers Demo.inception /\
    pc_languages call = list_to_set (selected_langs Demo.inception) /\
    v_title (pc_video call) = Some (f_title Demo.inception) /\
    v_year (pc_video call) = Some (f_year Demo.inception) /\
    forall p creds,
      pc_configs call !! p = Some creds <->
      p = py "opensubtitles" /\ p ∈ selected_providers Demo.inception /\
      creds = {| username := OPEN_SUBTITLES_USERNAME Demo.env1;
                 password := OPEN_SUBTITLES_PASSWORD Demo.env1 |}.
Proof.
  apply (provider_gets_the_selection Demo.env1 Demo.inception new_session Demo.world
           Cases.first_request.1).
  vm_compute. reflexivity.
Defined.

(** ** The temporary storage, on concrete runs *)

(** The tree of [Demo.world] is well formed. *)
Lemma demo_world_well_formed : well_formed (fs Demo.world).
Proof.
  intros p c [x Hx]. simpl in Hx.
  apply lookup_insert_Some in Hx. destruct Hx as [[Hp _]|[_ Hx]].
  - destruct p as [|a p]; [reflexivity|]. destruct p; discriminate Hp.
  - apply lookup_singleton_Some in Hx. destruct Hx as [Hp _].
    destruct p as [|a p]; [reflexivity|]. destruct p; discriminate Hp.
Qed.

(** The search for [Inception] on the machine of [Demo.world]. *)
Lemma plain_title_restores_tree_witness : fs Demo.plain_run.2 = fs Demo.world.
Proof.
  apply (plain_title_restores_tree Demo.env1 (py "Inception") 2010 (py "movie")
           Demo.only_eng Demo.only_opensubtitles None None None Demo.world
           Demo.plain_run.1 Demo.plain_run.2).
  - exact demo_world_well_formed.
  - intros Hin. apply list_elem_of_In in Hin. vm_compute in Hin.
    repeat (destruct Hin as [Hin|Hin]; [discriminate Hin|]). exact Hin.
  - vm_compute. reflexivity.
Defined.

(** The search for [Inception]: nothing is left at or below
    [/tmp/tmpaaaaaaaa]. *)
Lemma search_removes_temp_dir_witness :
  exists d,
    Fs.resolve_dir (fs Cases.with_temp_dir) (py "/tmp/tmpaaaaaaaa") = Ok d /\
    fs Cases.with_temp_dir !! d = Some Fs.Dir /\
    forall q, d `prefix_of` q -> fs Demo.plain_run.2 !! q = None.
Proof.
  apply (search_removes_temp_dir Demo.env1 (py "Inception") 2010 (py "movie")
           Demo.only_eng Demo.only_opensubtitles None None None Demo.world
           Demo.plain_run.1 Demo.plain_run.2 (py "/tmp/tmpaaaaaaaa") Cases.with_temp_dir).
  - vm_compute. reflexivity.
  - vm_compute. reflexivity.
Defined.
